(** * JULIA_SET: a shallow embedding of [julia_set.c]

    The program plots a Julia set: [julia_point] classifies one pixel,
    [julia_rgb] fills a [W*H*3] byte buffer, [tga_write] serialises it.

    Data model.
    - [int] is a 32-bit two's complement integer, kept as a [Z] with the
      wrap-around of every operation written out (module [Int]).
    - [float] is IEEE-754 binary32 (24-bit significand, round to nearest
      even), each C operation rounded once to binary32; the operations are
      those of the standard library's [SpecFloat] at [prec = 24],
      [emax = 128] (module [F32]).  Decimal literals are [double]
      (binary64) values converted to [float] on assignment.
    - [unsigned char] is a [Z] in [0, 256); a buffer is a [list Z].
    - [malloc] is an oracle that may answer [None] (the null pointer);
      a store outside the block, or through the null pointer, is a
      [Fault]. *)

From Stdlib Require Import ZArith Bool Lia.
From Stdlib Require Import SpecFloat.
From stdpp Require Import base numbers list.

Local Open Scope Z_scope.

(** ** Machine integers *)

Module Int.

Definition INT_MAX : Z := 2147483647.
Definition INT_MIN : Z := -2147483648.

Definition in_range (z : Z) : Prop := INT_MIN <= z <= INT_MAX.

(** Reduction of a mathematical integer to the 32-bit signed range. *)
Definition wrap (z : Z) : Z := (z + 2147483648) mod 4294967296 - 2147483648.

Definition add (a b : Z) : Z := wrap (a + b).
Definition sub (a b : Z) : Z := wrap (a - b).
Definition mul (a b : Z) : Z := wrap (a * b).
(** C's [/] and [%] truncate toward zero. *)
Definition div (a b : Z) : Z := wrap (Z.quot a b).
Definition rem (a b : Z) : Z := Z.rem a b.

(** Conversion of an [int] to [size_t] (64 bits, unsigned). *)
Definition to_size_t (z : Z) : Z := z mod 18446744073709551616.

(** Conversion of an [int] to [unsigned char]. *)
Definition to_uchar (z : Z) : Z := z mod 256.

End Int.

(** ** Binary32 arithmetic *)

Module F32.

Definition prec : Z := 24.
Definition emax : Z := 128.

Definition float : Type := spec_float.

Definition add : float -> float -> float := SFadd prec emax.
Definition sub : float -> float -> float := SFsub prec emax.
Definition mul : float -> float -> float := SFmul prec emax.
Definition div : float -> float -> float := SFdiv prec emax.
Definition opp : float -> float := SFopp.
Definition ltb : float -> float -> bool := SFltb.

(** [(float) n] for an [int] n: the nearest binary32, ties to even. *)
Definition of_int (n : Z) : float := binary_normalize prec emax n 0 false.

(** A [double] value (binary64) and its conversion to [float]. *)
Definition double_div (a b : Z) : spec_float :=
  SFdiv 53 1024 (binary_normalize 53 1024 a 0 false)
                (binary_normalize 53 1024 b 0 false).

Definition of_double (d : spec_float) : float :=
  match d with
  | S754_finite s m e => binary_round prec emax s m e
  | _ => d
  end.

Definition is_nan (x : float) : bool :=
  match x with S754_nan => true | _ => false end.

Definition is_finite (x : float) : bool :=
  match x with S754_zero _ | S754_finite _ _ _ => true | _ => false end.

End F32.

Abbreviation float := F32.float.

Declare Scope f32_scope.
Delimit Scope f32_scope with f32.
Infix "+" := F32.add : f32_scope.
Infix "-" := F32.sub : f32_scope.
Infix "*" := F32.mul : f32_scope.
Infix "/" := F32.div : f32_scope.

(** ** [julia_point] *)

(** [float ci = 0.156; float cr = -0.8;] *)
Definition ci : float := Eval vm_compute in F32.of_double (F32.double_div 156 1000).
Definition cr : float := Eval vm_compute in F32.of_double (SFopp (F32.double_div 8 10)).

(** The literal [1000] of the escape test, converted to [float]. *)
Definition threshold : float := Eval vm_compute in F32.of_int 1000.

(** Line 186: [x = ((float)(w - i - 1) * xl + (float)(i) * xr) / (float)(w - 1)]. *)
Definition point_x (w : Z) (xl xr : float) (i : Z) : float :=
  ((F32.of_int (Int.sub (Int.sub w i) 1) * xl + F32.of_int i * xr)
     / F32.of_int (Int.sub w 1))%f32.

(** Line 188: [y = ((float)(h - j - 1) * yb + (float)(j) * yt) / (float)(h - 1)]. *)
Definition point_y (h : Z) (yb yt : float) (j : Z) : float :=
  ((F32.of_int (Int.sub (Int.sub h j) 1) * yb + F32.of_int j * yt)
     / F32.of_int (Int.sub h 1))%f32.

(** The body of the loop up to the test: [t = ...; ai = ...; ar = t]. *)
Definition update (a : float * float) : float * float :=
  let '(ar, ai) := a in
  let t := (ar * ar - ai * ai + cr)%f32 in
  let ai := (ar * ai + ai * ar + ci)%f32 in
  let ar := t in
  (ar, ai).

(** The test [1000 < ar * ar + ai * ai]. *)
Definition escaped (a : float * float) : bool :=
  let '(ar, ai) := a in
  F32.ltb threshold (ar * ar + ai * ai)%f32.

(** [for (k = 0; k < 200; k++) { update; if (escaped) return 0; } return 1;]
    with [n] the number of iterations still allowed.  The result is the
    returned [int] together with the number of times the body ran. *)
Fixpoint julia_loop (n : nat) (a : float * float) : Z * nat :=
  match n with
  | O => (1, O)
  | S n' =>
      let a' := update a in
      if escaped a' then (0, 1%nat)
      else let '(r, steps) := julia_loop n' a' in (r, S steps)
  end.

Definition julia_run (w h : Z) (xl xr yb yt : float) (i j : Z) : Z * nat :=
  let x := point_x w xl xr i in
  let y := point_y h yb yt j in
  let ar := x in
  let ai := y in
  julia_loop 200 (ar, ai).

Definition julia_point (w h : Z) (xl xr yb yt : float) (i j : Z) : Z :=
  fst (julia_run w h xl xr yb yt i j).

Definition julia_steps (w h : Z) (xl xr yb yt : float) (i j : Z) : nat :=
  snd (julia_run w h xl xr yb yt i j).

(** The plane bounds of [main]: [-1.5] and [+1.5]. *)
Definition minus_1_5 : float := Eval vm_compute in F32.of_double (SFopp (F32.double_div 15 10)).
Definition plus_1_5 : float := Eval vm_compute in F32.of_double (F32.double_div 15 10).


(** ** Memory, stores and loops *)

(** Ways in which an execution leaves defined behaviour. *)
Inductive fault : Type :=
  | NullStore (k : Z)          (* [rgb[k] = v] with [rgb] the null pointer *)
  | StoreOutOfBounds (k : Z)   (* [rgb[k] = v] outside the allocated block *)
  | ReadOutOfBounds            (* [fwrite] asked for more than the block holds *)
  | NullFile.                  (* [fwrite] on the null [FILE *] of a failed [fopen] *)

Inductive outcome (A : Type) : Type :=
  | Done (a : A)
  | Fault (f : fault).
Arguments Done {A} a.
Arguments Fault {A} f.

Definition bind {A B : Type} (m : outcome A) (f : A -> outcome B) : outcome B :=
  match m with
  | Done a => f a
  | Fault e => Fault e
  end.

Notation "'do' x <- m ; k" := (bind m (fun x => k))
  (at level 10, x name, m at level 100, k at level 200).

(** An [unsigned char *]: [None] is the null pointer, [Some b] points to a
    block whose current content is [b]. *)
Definition pointer : Type := option (list Z).

(** The allocator: asked for [n] bytes it answers [None] or a block of
    [n] bytes of indeterminate content. *)
Definition allocator : Type := Z -> pointer.

Definition allocator_ok (malloc : allocator) : Prop :=
  forall n b, malloc n = Some b -> Z.of_nat (length b) = n.

(** [rgb[k] = v], with [v] an [int] converted to [unsigned char]. *)
Definition store (rgb : pointer) (k v : Z) : outcome pointer :=
  match rgb with
  | None => Fault (NullStore k)
  | Some b =>
      if decide (0 <= k < Z.of_nat (length b))
      then Done (Some (<[Z.to_nat k := Int.to_uchar v]> b))
      else Fault (StoreOutOfBounds k)
  end.

(** A sequence of stores, performed in order. *)
Fixpoint exec (stores : list (Z * Z)) (rgb : pointer) : outcome pointer :=
  match stores with
  | [] => Done rgb
  | (k, v) :: rest => do rgb' <- store rgb k v ; exec rest rgb'
  end.

(** [for (i = i0; i < i0 + n; ++i) body], [n] iterations left.  The
    counter stays below the [int] bound of the loop, so [++i] never
    wraps. *)
Fixpoint for_from {S : Type} (n : nat) (i : Z)
    (body : Z -> S -> outcome S) (s : S) : outcome S :=
  match n with
  | O => Done s
  | S n' => do s' <- body i s ; for_from n' (i + 1) body s'
  end.

(** [for (i = 0; i < bound; ++i) body]. *)
Definition for_loop {S : Type} (bound : Z)
    (body : Z -> S -> outcome S) (s : S) : outcome S :=
  for_from (Z.to_nat bound) 0 body s.

(** ** [julia_rgb] *)

Section Render.

Variables (w h : Z) (xl xr yb yt : float).

(** Line 132: [k = (j * w + i) * 3]. *)
Definition offset (i j : Z) : Z :=
  Int.mul (Int.add (Int.mul j w) i) 3.

(** Lines 129-135: the three stores of pixel [(i, j)]. *)
Definition pixel_stores (j i : Z) : list (Z * Z) :=
  let juliaValue := julia_point w h xl xr yb yt i j in
  let k := offset i j in
  [ (k, Int.mul 255 (Int.sub 1 juliaValue));
    (Int.add k 1, Int.mul 255 (Int.sub 1 juliaValue));
    (Int.add k 2, 255) ].

(** The inner loop: one row of the image. *)
Definition row (j : Z) (rgb : pointer) : outcome pointer :=
  for_loop w (fun i rgb => exec (pixel_stores j i) rgb) rgb.

(** The byte count handed to [malloc]:
    [w * h * 3 * sizeof (unsigned char)]. *)
Definition alloc_size : Z :=
  (Int.to_size_t (Int.mul (Int.mul w h) 3) * 1) mod 18446744073709551616.

(** [julia_rgb] run by a single worker. *)
Definition julia_rgb (malloc : allocator) : outcome pointer :=
  let rgb := malloc alloc_size in
  do rgb <- for_loop h row rgb ;
  Done rgb.

(** The stores of the two loops, in program order. *)
Fixpoint stores_from (n : nat) (i : Z) (f : Z -> list (Z * Z)) : list (Z * Z) :=
  match n with
  | O => []
  | S n' => f i ++ stores_from n' (i + 1) f
  end.

Definition row_stores (j : Z) : list (Z * Z) :=
  stores_from (Z.to_nat w) 0 (pixel_stores j).

Definition render_stores : list (Z * Z) :=
  stores_from (Z.to_nat h) 0 row_stores.

End Render.

(** An execution by several workers: every iteration of the parallel
    loop is a task, the stores of one task stay in program order, and
    the tasks interleave freely. *)
Inductive interleaving {A : Type} : list (list A) -> list A -> Prop :=
  | interleaving_done (tasks : list (list A)) :
      Forall (fun t => t = []) tasks -> interleaving tasks []
  | interleaving_step (before after : list (list A)) (x : A) (t tr : list A) :
      interleaving (before ++ t :: after) tr ->
      interleaving (before ++ (x :: t) :: after) (x :: tr).

Definition row_tasks (w h : Z) (xl xr yb yt : float) : list (list (Z * Z)) :=
  row_stores w h xl xr yb yt <$> seqZ 0 h.

(** ** [tga_write] *)

Definition header1 : list Z := [0; 0; 2; 0; 0; 0; 0; 0; 0; 0; 0; 0].

Definition header2 (w h : Z) : list Z :=
  map Int.to_uchar
      [Int.rem w 256; Int.div w 256; Int.rem h 256; Int.div h 256; 24; 0].

(** [fwrite (buf, 1, count, file)] on a file that was opened. *)
Definition fwrite (buf : list Z) (count : Z) (file : list Z) : outcome (list Z) :=
  if decide (count <= Z.of_nat (length buf))
  then Done (file ++ take (Z.to_nat count) buf)
  else Fault ReadOutOfBounds.

(** The content of the file once [tga_write] has closed it. *)
Definition tga_write (w h : Z) (rgb : list Z) : outcome (list Z) :=
  let file := [] in
  do file <- fwrite header1 12 file ;
  do file <- fwrite (header2 w h) 6 file ;
  fwrite rgb (Int.to_size_t (Int.mul (Int.mul 3 w) h)) file.


(** ** Vocabulary of the statements *)

(** *** Integers that fit *)

(** The byte count [3 * W * H] is representable as an [int]. *)
Definition fits (W H : Z) : Prop := 3 * W * H <= Int.INT_MAX.

(** *** The escape-time iteration as the specification words it

    The point of pixel [(i, j)] by linear interpolation with the integer
    weights [W - i - 1] and [i] (resp. [H - j - 1] and [j]); the update
    [t = ar^2 - ai^2 + cr; ai = 2 ar ai + ci; ar = t], where the doubling
    of the rounded product [ar * ai] is written [twice]; the orbit after
    [n] updates; the threshold test. *)

Definition spec_point (W H : Z) (xl xr yb yt : float) (i j : Z) : float * float :=
  (((F32.of_int (W - i - 1) * xl + F32.of_int i * xr) / F32.of_int (W - 1))%f32,
   ((F32.of_int (H - j - 1) * yb + F32.of_int j * yt) / F32.of_int (H - 1))%f32).

Definition twice (p : float) : float := (p + p)%f32.

Definition spec_update (a : float * float) : float * float :=
  let '(ar, ai) := a in
  ((ar * ar - ai * ai + cr)%f32, (twice (ar * ai) + ci)%f32).

Fixpoint orbit (n : nat) (a : float * float) : float * float :=
  match n with
  | O => a
  | S n' => spec_update (orbit n' a)
  end.

Definition exceeds (a : float * float) : bool :=
  let '(ar, ai) := a in
  F32.ltb (F32.of_int 1000) (ar * ar + ai * ai)%f32.

(** Update number [n] is the first after which the threshold is exceeded. *)
Definition first_escape (n : nat) (a : float * float) : Prop :=
  exceeds (orbit n a) = true /\
  forall m, (1 <= m < n)%nat -> exceeds (orbit m a) = false.

(** *** Floats up to the sign of zero *)

Definition is_zero (x : float) : bool :=
  match x with S754_zero _ => true | _ => false end.

(** Equal as binary32 data, or both zero ([+0] and [-0] compare equal). *)
Definition eqz (a b : float) : Prop :=
  a = b \/ (is_zero a = true /\ is_zero b = true).



(** *** Exactly representable products *)

(** The pairs [(m1, e1)] and [(m2, e2)] denote the same number
    [m * 2^e]: compared after scaling both to the smaller exponent. *)
Definition same_value (m1 e1 m2 e2 : Z) : bool :=
  let lo := Z.min e1 e2 in
  (m1 * 2 ^ (e1 - lo) =? m2 * 2 ^ (e2 - lo)).

(** The binary32 product [n * x] of two finite non-zero numbers is
    finite and was not rounded. *)
Definition exact_product (n x : float) : bool :=
  match n, x, F32.mul n x with
  | S754_finite _ mn en, S754_finite _ mx ex, S754_finite _ mp ep =>
      same_value (Z.pos mp) ep (Z.pos mn * Z.pos mx) (en + ex)
  | _, _, _ => false
  end.

(** [m] shifted left by [n] bits. *)
Fixpoint shl_pos (n : nat) (m : positive) : positive :=
  match n with
  | O => m
  | S n' => xO (shl_pos n' m)
  end.

(** *** Stores on a block *)

(** The effect of one store on the content of a block that holds it. *)
Definition write (b : list Z) (s : Z * Z) : list Z :=
  <[Z.to_nat s.1 := Int.to_uchar s.2]> b.

Definition in_bounds (n : Z) (s : Z * Z) : Prop := 0 <= s.1 < n.

(** The first two bytes of a pixel, from the value of [julia_point]. *)
Definition pixel_colour (juliaValue : Z) : Z :=
  if decide (juliaValue = 0) then 255 else 0.

(** The byte count [tga_write] hands to its last [fwrite]. *)
Definition tga_count (w h : Z) : Z := Int.to_size_t (Int.mul (Int.mul 3 w) h).

(** *** Concrete inputs *)

(** An allocator that always succeeds and clears the block. *)
Definition zeros : allocator :=
  fun n => if decide (0 <= n) then Some (replicate (Z.to_nat n) 0) else None.

(** An allocator that always fails. *)
Definition no_memory : allocator := fun _ => None.

(** The pixel buffer of a 32768 x 49152 image, all bytes 255. *)
Definition wide_buffer : list Z := replicate (Z.to_nat 4831838208) 255.

(** The binary32 values of [-1.7] and [1.7]. *)
Definition minus_1_7 : float := Eval vm_compute in F32.of_double (SFopp (F32.double_div 17 10)).
Definition plus_1_7 : float := Eval vm_compute in F32.of_double (F32.double_div 17 10).

(** ** [main] *)

(** The bytes [fwrite] may read behind a pointer: the block it points
    to, and nothing behind the null pointer. *)
Definition readable (rgb : pointer) : list Z :=
  match rgb with
  | Some b => b
  | None => []
  end.

(** [tga_write] with [fopen] as it may answer (line 247): a new, empty
    file, or the null [FILE *].  The answer is not tested; on the null
    [FILE *] the first [fwrite] (line 251) is undefined. *)
Definition tga_write_file (opened : bool) (w h : Z) (rgb : list Z) : outcome (list Z) :=
  if opened then tga_write w h rgb else Fault NullFile.

(** [main]: the content of [julia_set.tga] and the exit status, given
    what [malloc] answers and whether [fopen] opens the file.  The lines
    printed on the console and the timing are left out; [free] ends the
    life of the block and changes neither. *)
Definition main (malloc : allocator) (opened : bool) : outcome (list Z * Z) :=
  let size := 20 in
  let h := Int.mul 1000 size in
  let w := Int.mul 1000 size in
  let xl := minus_1_5 in
  let xr := plus_1_5 in
  let yb := minus_1_5 in
  let yt := plus_1_5 in
  do rgb <- julia_rgb w h xl xr yb yt malloc ;
  do file <- tga_write_file opened w h (readable rgb) ;
  Done (file, 0).

(** One of the two components of the iterate is a NaN. *)
Definition has_nan (a : float * float) : bool := F32.is_nan a.1 || F32.is_nan a.2.

(** * Proofs *)

(** ** Machine integers and binary32 facts *)

Lemma wrap_id z : Int.in_range z -> Int.wrap z = z.
Proof. unfold Int.in_range, Int.INT_MIN, Int.INT_MAX, Int.wrap. intros Hz. rewrite Z.mod_small; lia. Qed.

Lemma wrap_small z : -2147483648 <= z <= 2147483647 -> Int.wrap z = z.
Proof. intros Hz. apply wrap_id. exact Hz. Qed.

Lemma round_aux_negb s m e l :
  binary_round_aux F32.prec F32.emax (negb s) m e l = SFopp (binary_round_aux F32.prec F32.emax s m e l).
Proof.
  unfold binary_round_aux.
  destruct (shr_fexp _ _ m e l) as [mrs' e'].
  destruct (shr_fexp _ _ _ e' loc_Exact) as [mrs'' e''].
  destruct (shr_m mrs''); try reflexivity.
  destruct (Z.leb _ _); reflexivity.
Qed.

Lemma mul_comm x y : F32.mul x y = F32.mul y x.
Proof.
  unfold F32.mul, SFmul.
  destruct x as [sx|sx| |sx mx ex], y as [sy|sy| |sy my ey];
    rewrite ?(xorb_comm sx sy), ?(Pos.mul_comm mx my), ?(Z.add_comm ex ey); reflexivity.
Qed.

Lemma mul_opp_r x y : F32.mul x (F32.opp y) = F32.opp (F32.mul x y).
Proof.
  unfold F32.mul, F32.opp, SFmul.
  destruct x as [sx|sx| |sx mx ex], y as [sy|sy| |sy my ey]; cbn [SFopp];
    rewrite <- ?negb_xorb_r, ?round_aux_negb; reflexivity.
Qed.

Lemma mul_opp_l x y : F32.mul (F32.opp x) y = F32.opp (F32.mul x y).
Proof. now rewrite mul_comm, mul_opp_r, mul_comm. Qed.

Lemma opp_involutive x : F32.opp (F32.opp x) = x.
Proof. destruct x; cbn; rewrite ?negb_involutive; reflexivity. Qed.

Lemma add_comm x y : F32.add x y = F32.add y x.
Proof.
  unfold F32.add, SFadd.
  destruct x as [sx|sx| |sx mx ex], y as [sy|sy| |sy my ey];
   try reflexivity; try (destruct sx, sy; reflexivity).
  rewrite (Z.min_comm ex ey), Z.add_comm. reflexivity.
Qed.

Lemma div_opp_l x y : F32.div (F32.opp x) y = F32.opp (F32.div x y).
Proof.
  unfold F32.div, F32.opp, SFdiv.
  destruct x as [sx|sx| |sx mx ex], y as [sy|sy| |sy my ey]; cbn [SFopp];
    rewrite <- ?negb_xorb_l; try reflexivity.
  destruct (SFdiv_core_binary _ _ _ _ _ _) as [[mz ez] lz].
  now rewrite round_aux_negb.
Qed.

Ltac eqz_close := first [ left; reflexivity | right; split; reflexivity ].
Ltac case_float x := tryif is_var x then destruct x as [[]|[]| |[] ? ?] else idtac.
Ltac eqz_cases :=
  repeat match goal with
  | H : eqz _ _ |- _ => destruct H as [->|[? ?]]
  end;
  try (left; reflexivity);
  repeat match goal with
  | H : is_zero ?x = true |- _ =>
      destruct x as [[]| | |]; cbn in H; try discriminate H; clear H
  end.

Lemma eqz_refl a : eqz a a. Proof. now left. Qed.
Lemma eqz_sym a b : eqz a b -> eqz b a.
Proof. intros [->|[? ?]]; [now left | now right]. Qed.
Lemma eqz_trans a b c : eqz a b -> eqz b c -> eqz a c.
Proof. intros [->|[Ha Hb]] [<-|[Hb' Hc]]; try (now left); try (now right); right; auto.
Qed.

Lemma eqz_opp a b : eqz a b -> eqz (F32.opp a) (F32.opp b).
Proof. intros H; eqz_cases; eqz_close. Qed.

Lemma mul_eqz a a' b b' : eqz a a' -> eqz b b' -> eqz (F32.mul a b) (F32.mul a' b').
Proof.
  intros Ha Hb; eqz_cases;
  match goal with |- eqz (F32.mul ?x ?y) (F32.mul ?x' ?y') =>
     case_float x; case_float y end; eqz_close.
Qed.

Lemma add_eqz a a' b b' : eqz a a' -> eqz b b' -> eqz (F32.add a b) (F32.add a' b').
Proof.
  intros Ha Hb; eqz_cases;
  match goal with |- eqz (F32.add ?x ?y) (F32.add ?x' ?y') =>
     case_float x; case_float y end; eqz_close.
Qed.

Lemma div_eqz_l a a' n : eqz a a' -> eqz (F32.div a n) (F32.div a' n).
Proof.
  intros Ha; eqz_cases; destruct n as [[]|[]| |[] ? ?]; eqz_close.
Qed.

Lemma round_negb s m e :
  binary_round F32.prec F32.emax (negb s) m e = SFopp (binary_round F32.prec F32.emax s m e).
Proof.
  unfold binary_round. destruct (shl_align _ _ _) as [mz ez]. apply round_aux_negb.
Qed.

Lemma normalize_opp z e :
  eqz (binary_normalize F32.prec F32.emax (- z) e false)
      (F32.opp (binary_normalize F32.prec F32.emax z e false)).
Proof.
  destruct z as [|p|p]; cbn [Z.opp binary_normalize].
  - now right.
  - left. apply (round_negb false).
  - left. unfold F32.opp. rewrite <- (round_negb true). reflexivity.
Qed.

Lemma cond_Zopp_negb s z : cond_Zopp (negb s) z = - cond_Zopp s z.
Proof. destruct s; cbn; lia. Qed.

Lemma add_opp_opp a b : eqz (F32.add (F32.opp a) (F32.opp b)) (F32.opp (F32.add a b)).
Proof.
  destruct a as [[]|[]| |sa ma ea], b as [[]|[]| |sb mb eb]; try eqz_close.
  unfold F32.add, F32.opp. cbn [SFadd SFopp].
  change (eqz (binary_normalize F32.prec F32.emax
          (cond_Zopp (negb sa) (Z.pos (shl_align ma ea (ea `min` eb)).1) +
           cond_Zopp (negb sb) (Z.pos (shl_align mb eb (ea `min` eb)).1))
          (ea `min` eb) false)
     (F32.opp (binary_normalize F32.prec F32.emax
          (cond_Zopp sa (Z.pos (shl_align ma ea (ea `min` eb)).1) +
           cond_Zopp sb (Z.pos (shl_align mb eb (ea `min` eb)).1))
          (ea `min` eb) false))).
  rewrite !cond_Zopp_negb, <- Z.opp_add_distr. apply normalize_opp.
Qed.

Lemma sq_eqz a a' : eqz a a' -> F32.mul a a = F32.mul a' a'.
Proof. intros H; eqz_cases; reflexivity. Qed.

Lemma sq_opp a : F32.mul (F32.opp a) (F32.opp a) = F32.mul a a.
Proof. now rewrite mul_opp_l, mul_opp_r, opp_involutive. Qed.

Lemma add_ci_eqz a a' : eqz a a' -> F32.add a ci = F32.add a' ci.
Proof. intros H; eqz_cases; reflexivity. Qed.

Lemma update_rotated x y x' y' :
  eqz x' (F32.opp x) -> eqz y' (F32.opp y) -> update (x', y') = update (x, y).
Proof.
  intros Hx Hy. unfold update.
  rewrite (sq_eqz _ _ Hx), (sq_eqz _ _ Hy), !sq_opp.
  f_equal. apply add_ci_eqz.
  assert (Hxy : eqz (F32.mul x' y') (F32.mul x y)).
  { eapply eqz_trans; [apply (mul_eqz _ _ _ _ Hx Hy)|].
    rewrite mul_opp_l, mul_opp_r, opp_involutive. apply eqz_refl. }
  assert (Hyx : eqz (F32.mul y' x') (F32.mul y x)).
  { eapply eqz_trans; [apply (mul_eqz _ _ _ _ Hy Hx)|].
    rewrite mul_opp_l, mul_opp_r, opp_involutive. apply eqz_refl. }
  apply add_eqz; assumption.
Qed.

(** The interpolation with its two weights exchanged. *)
Lemma interp_rotated (a b : float) xl xr n :
  eqz xr (F32.opp xl) ->
  eqz (F32.div (F32.add (F32.mul b xl) (F32.mul a xr)) n)
      (F32.opp (F32.div (F32.add (F32.mul a xl) (F32.mul b xr)) n)).
Proof.
  intros Hr. rewrite <- div_opp_l. apply div_eqz_l.
  eapply eqz_trans; [| apply add_opp_opp].
  rewrite add_comm. apply add_eqz.
  - eapply eqz_trans; [apply (mul_eqz a a xr _ (eqz_refl _) Hr)|].
    rewrite mul_opp_r. apply eqz_refl.
  - apply eqz_sym. eapply eqz_trans; [apply eqz_opp, (mul_eqz b b xr _ (eqz_refl _) Hr)|].
    rewrite mul_opp_r, opp_involutive. apply eqz_refl.
Qed.

Lemma update_spec a : update a = spec_update a.
Proof. destruct a as [ar ai]. unfold update, spec_update, twice. now rewrite (mul_comm ai ar). Qed.

Lemma escaped_spec a : escaped a = exceeds a.
Proof. destruct a; reflexivity. Qed.

Lemma orbit_shift n a : orbit (S n) a = orbit n (spec_update a).
Proof. induction n as [|n IH]; [reflexivity|]. cbn [orbit] in *. now rewrite IH. Qed.

Lemma julia_loop_in_set n a :
  (forall k, (1 <= k <= n)%nat -> exceeds (orbit k a) = false) ->
  julia_loop n a = (1, n).
Proof.
  revert a. induction n as [|n IH]; intros a Hk; [reflexivity|].
  cbn [julia_loop]. rewrite update_spec, escaped_spec.
  assert (H1 : exceeds (spec_update a) = false) by (apply (Hk 1%nat); lia).
  rewrite H1.
  rewrite IH; [reflexivity|].
  intros k Hkn. rewrite <- orbit_shift. apply Hk. lia.
Qed.

Lemma julia_loop_escape n k a :
  (1 <= k <= n)%nat -> first_escape k a -> julia_loop n a = (0, k).
Proof.
  revert k a. induction n as [|n IH]; intros k a Hk [He Hbefore]; [lia|].
  cbn [julia_loop]. rewrite update_spec, escaped_spec.
  destruct (decide (k = 1%nat)) as [->|Hk1].
  - cbn [orbit] in He. now rewrite He.
  - assert (H1 : exceeds (spec_update a) = false) by (apply (Hbefore 1%nat); lia).
    rewrite H1.
    destruct k as [|k]; [lia|].
    rewrite (IH k); [reflexivity|lia|].
    split.
    + now rewrite <- orbit_shift.
    + intros m Hm. rewrite <- orbit_shift. apply Hbefore. lia.
Qed.

Lemma julia_loop_cases n a :
  (julia_loop n a = (1, n) /\ forall k, (1 <= k <= n)%nat -> exceeds (orbit k a) = false)
  \/ (exists k, (1 <= k <= n)%nat /\ first_escape k a /\ julia_loop n a = (0, k)).
Proof.
  revert a. induction n as [|n IH]; intros a.
  - left. split; [reflexivity|]. intros k Hk; lia.
  - destruct (exceeds (orbit 1 a)) eqn:E1.
    + right. exists 1%nat. split; [lia|].
      assert (first_escape 1 a) by (split; [assumption|intros m Hm; lia]).
      split; [assumption|]. apply julia_loop_escape; [lia|assumption].
    + destruct (IH (spec_update a)) as [[Hl Hall]|(k & Hk & [He Hb] & Hl)].
      * left. assert (forall k, (1 <= k <= S n)%nat -> exceeds (orbit k a) = false).
        { intros k Hk. destruct k as [|k]; [lia|]. destruct k as [|k]; [assumption|].
          rewrite orbit_shift. apply Hall. lia. }
        split; [|assumption]. now apply julia_loop_in_set.
      * right. exists (S k). split; [lia|].
        assert (first_escape (S k) a).
        { split; [now rewrite orbit_shift|].
          intros m Hm. destruct m as [|m]; [lia|]. destruct m as [|m]; [assumption|].
          rewrite orbit_shift. apply Hb. lia. }
        split; [assumption|]. apply julia_loop_escape; [lia|assumption].
Qed.

Lemma julia_run_spec W H xl xr yb yt i j :
  1 < W <= Int.INT_MAX -> 1 < H <= Int.INT_MAX -> 0 <= i < W -> 0 <= j < H ->
  julia_run W H xl xr yb yt i j = julia_loop 200 (spec_point W H xl xr yb yt i j).
Proof.
  intros HW HH Hi Hj. unfold julia_run, spec_point, point_x, point_y, Int.sub, Int.INT_MAX in *.
  rewrite !wrap_id; try reflexivity; unfold Int.in_range, Int.INT_MIN, Int.INT_MAX;
    rewrite ?wrap_id; unfold Int.in_range, Int.INT_MIN, Int.INT_MAX; lia.
Qed.

(** Claim C1.  For every grid with [1 < W], [1 < H] and every pixel
    [0 <= i < W], [0 <= j < H], [julia_point] iterates the update of the
    specification from the interpolated point [spec_point]: it returns 0
    exactly when some update among the first 200 exceeds the threshold,
    and then it has run exactly as many updates as the first such one
    (neither fewer nor more); it returns 1 exactly when none of the 200
    updates exceeds the threshold, after running all 200. *)
Theorem C1_julia_point_escape_time W H xl xr yb yt i j :
  1 < W <= Int.INT_MAX -> 1 < H <= Int.INT_MAX -> 0 <= i < W -> 0 <= j < H ->
  let a0 := spec_point W H xl xr yb yt i j in
  (forall n, (1 <= n <= 200)%nat -> first_escape n a0 ->
     julia_point W H xl xr yb yt i j = 0 /\ julia_steps W H xl xr yb yt i j = n)
  /\ (julia_point W H xl xr yb yt i j = 0 ->
      exists n, (1 <= n <= 200)%nat /\ first_escape n a0
                /\ julia_steps W H xl xr yb yt i j = n)
  /\ (julia_point W H xl xr yb yt i j = 1 <->
      forall n, (1 <= n <= 200)%nat -> exceeds (orbit n a0) = false)
  /\ (julia_point W H xl xr yb yt i j = 1 -> julia_steps W H xl xr yb yt i j = 200%nat).
Proof.
  intros HW HH Hi Hj a0. unfold julia_point, julia_steps.
  rewrite (julia_run_spec W H xl xr yb yt i j HW HH Hi Hj). fold a0.
  destruct (julia_loop_cases 200 a0) as [[Hl Hall]|(k & Hk & Hfe & Hl)];
    rewrite Hl; cbn [fst snd].
  - split; [|split; [|split]].
    + intros n Hn [He _]. rewrite (Hall n Hn) in He. discriminate.
    + intros; discriminate.
    + split; auto.
    + reflexivity.
  - split; [|split; [|split]].
    + intros n Hn Hfn. rewrite (julia_loop_escape 200 n a0 Hn Hfn) in Hl.
      split; congruence.
    + intros _. exists k. auto.
    + split; [intros; discriminate|].
      intros Hall. destruct Hfe as [He _]. rewrite (Hall k Hk) in He. discriminate.
    + intros; discriminate.
Qed.

Lemma C1_witness :
  (1 < 3 <= Int.INT_MAX /\ 0 <= 2 < 3)
  /\ (julia_point 3 3 minus_1_5 plus_1_5 minus_1_5 plus_1_5 2 2 = 0 ->
      exists n, (1 <= n <= 200)%nat
        /\ first_escape n (spec_point 3 3 minus_1_5 plus_1_5 minus_1_5 plus_1_5 2 2)
        /\ julia_steps 3 3 minus_1_5 plus_1_5 minus_1_5 plus_1_5 2 2 = n).
Proof.
  assert (HW : 1 < 3 <= Int.INT_MAX) by (unfold Int.INT_MAX; lia).
  assert (Hi : 0 <= 2 < 3) by lia.
  split; [split; assumption|].
  apply (C1_julia_point_escape_time 3 3 minus_1_5 plus_1_5 minus_1_5 plus_1_5 2 2
           HW HW Hi Hi).
Defined.


(** Claim C7.  For every input, [julia_point] returns after at most 200
    executions of the loop body, and its result is 0 or 1. *)
Theorem C7_julia_point_terminates (w h : Z) (xl xr yb yt : float) (i j : Z) :
  (julia_steps w h xl xr yb yt i j <= 200)%nat /\
  (julia_point w h xl xr yb yt i j = 0 \/ julia_point w h xl xr yb yt i j = 1).
Proof.
  unfold julia_steps, julia_point, julia_run.
  destruct (julia_loop_cases 200 (point_x w xl xr i, point_y h yb yt j))
    as [[Hl _]|(k & Hk & _ & Hl)]; rewrite Hl; cbn [fst snd]; split; auto; lia.
Qed.

Lemma point_x_rotated W xl xr i :
  1 < W <= Int.INT_MAX -> 0 <= i < W -> eqz xr (F32.opp xl) ->
  eqz (point_x W xl xr (W - 1 - i)) (F32.opp (point_x W xl xr i)).
Proof.
  unfold Int.INT_MAX. intros HW Hi Hr. unfold point_x, Int.sub.
  assert (Hw : forall z, -2147483648 <= z <= 2147483647 -> Int.wrap z = z).
  { intros z Hz. apply wrap_id. exact Hz. }
  rewrite (Hw (W - (W - 1 - i))), (Hw (W - i)), !Hw by lia.
  replace (W - (W - 1 - i) - 1) with i by lia.
  replace (W - i - 1) with (W - 1 - i) by lia.
  apply interp_rotated, Hr.
Qed.

(** Claim C10.  When the bounds are symmetric about the origin
    ([xr = -xl], [yt = -yb], up to the sign of a zero), the pixel
    rotated by 180 degrees is mapped to the negated point (up to the
    sign of a zero), the first update gives the same iterate from both
    points, and [julia_point] returns the same value for both pixels. *)
Theorem C10_rotation_invariance W H xl xr yb yt i j :
  1 < W <= Int.INT_MAX -> 1 < H <= Int.INT_MAX -> 0 <= i < W -> 0 <= j < H ->
  eqz xr (F32.opp xl) -> eqz yt (F32.opp yb) ->
  julia_point W H xl xr yb yt i j = julia_point W H xl xr yb yt (W - 1 - i) (H - 1 - j)
  /\ eqz (point_x W xl xr (W - 1 - i)) (F32.opp (point_x W xl xr i))
  /\ eqz (point_y H yb yt (H - 1 - j)) (F32.opp (point_y H yb yt j))
  /\ update (point_x W xl xr (W - 1 - i), point_y H yb yt (H - 1 - j))
     = update (point_x W xl xr i, point_y H yb yt j).
Proof.
  intros HW HH Hi Hj Hx Hy.
  pose proof (point_x_rotated W xl xr i HW Hi Hx) as Rx.
  pose proof (point_x_rotated H yb yt j HH Hj Hy) as Ry.
  change (point_x H yb yt) with (point_y H yb yt) in Ry.
  pose proof (update_rotated _ _ _ _ Rx Ry) as Hu.
  split; [|auto].
  unfold julia_point, julia_run.
  change 200%nat with (S 199). cbn [julia_loop]. now rewrite Hu.
Qed.

Lemma C10_witness :
  (1 < 20000 <= Int.INT_MAX /\ 0 <= 3 < 20000 /\ 0 <= 5 < 20000
   /\ eqz plus_1_5 (F32.opp minus_1_5))
  /\ julia_point 20000 20000 minus_1_5 plus_1_5 minus_1_5 plus_1_5 3 5
     = julia_point 20000 20000 minus_1_5 plus_1_5 minus_1_5 plus_1_5
         (20000 - 1 - 3) (20000 - 1 - 5).
Proof.
  assert (HW : 1 < 20000 <= Int.INT_MAX) by (unfold Int.INT_MAX; lia).
  assert (Hi : 0 <= 3 < 20000) by lia.
  assert (Hj : 0 <= 5 < 20000) by lia.
  assert (Hs : eqz plus_1_5 (F32.opp minus_1_5)) by (left; reflexivity).
  split; [repeat apply conj; first [assumption | apply HW | apply Hi | apply Hj]|].
  apply (C10_rotation_invariance 20000 20000 minus_1_5 plus_1_5 minus_1_5 plus_1_5 3 5
           HW HW Hi Hj Hs Hs).
Defined.


(** ** The renderer *)

Lemma zeros_ok : allocator_ok zeros.
Proof.
  intros n b Hb. unfold zeros in Hb. destruct (decide (0 <= n)); [|discriminate].
  injection Hb as <-. rewrite length_replicate. lia.
Qed.


Lemma bind_done {A} (m : outcome A) : (do x <- m ; Done x) = m.
Proof. now destruct m. Qed.

Lemma exec_app s1 s2 p : exec (s1 ++ s2) p = (do p' <- exec s1 p ; exec s2 p').
Proof.
  revert p. induction s1 as [|[k v] s1 IH]; intros p; [reflexivity|].
  cbn [app exec]. destruct (store p k v) as [p'|e]; cbn [bind]; [apply IH|reflexivity].
Qed.

Lemma for_from_exec n i f p :
  for_from n i (fun i p => exec (f i) p) p = exec (stores_from n i f) p.
Proof.
  revert i p. induction n as [|n IH]; intros i p; [reflexivity|].
  cbn [for_from stores_from]. rewrite exec_app.
  destruct (exec (f i) p) as [p'|e]; cbn [bind]; [apply IH|reflexivity].
Qed.

Lemma for_from_ext {S} n i (f g : Z -> S -> outcome S) s :
  (forall i s, f i s = g i s) -> for_from n i f s = for_from n i g s.
Proof.
  intros E. revert i s. induction n as [|n IH]; intros i s; [reflexivity|].
  cbn [for_from]. rewrite E. destruct (g i s); cbn [bind]; auto.
Qed.

Lemma julia_rgb_exec w h xl xr yb yt malloc :
  julia_rgb w h xl xr yb yt malloc
  = exec (render_stores w h xl xr yb yt) (malloc (alloc_size w h)).
Proof.
  unfold julia_rgb, render_stores, for_loop. rewrite bind_done.
  rewrite <- for_from_exec. apply for_from_ext. intros j p.
  unfold row, row_stores, for_loop. apply for_from_exec.
Qed.

Lemma exec_in_bounds stores b :
  Forall (in_bounds (Z.of_nat (length b))) stores ->
  exec stores (Some b) = Done (Some (foldl write b stores)).
Proof.
  revert b. induction stores as [|[k v] stores IH]; intros b Hb; [reflexivity|].
  inversion Hb as [|? ? Hk Hrest]; subst. unfold in_bounds in Hk; cbn in Hk.
  cbn [exec store foldl]. rewrite decide_True by exact Hk. cbn [bind].
  apply IH. unfold write; cbn. now rewrite length_insert.
Qed.

Lemma length_writes stores b : length (foldl write b stores) = length b.
Proof.
  revert b. induction stores as [|s stores IH]; intros b; [reflexivity|].
  cbn [foldl]. rewrite IH. apply length_insert.
Qed.

Lemma writes_untouched stores b (n : nat) :
  (forall s, s ∈ stores -> Z.to_nat s.1 ≠ n) ->
  foldl write b stores !! n = b !! n.
Proof.
  revert b. induction stores as [|s stores IH]; intros b Hn; [reflexivity|].
  cbn [foldl]. rewrite IH.
  - unfold write. apply list_lookup_insert_ne. apply Hn. left.
  - intros s' Hs'. apply Hn. now right.
Qed.

Lemma writes_lookup stores b k v :
  NoDup (fst <$> stores) -> Forall (in_bounds (Z.of_nat (length b))) stores ->
  (k, v) ∈ stores ->
  foldl write b stores !! Z.to_nat k = Some (Int.to_uchar v).
Proof.
  revert b. induction stores as [|[k0 v0] stores IH]; intros b Hnd Hb Hin.
  - inversion Hin.
  - rewrite fmap_cons in Hnd. apply NoDup_cons in Hnd as [Hk0 Hnd].
    inversion Hb as [|? ? Hk Hrest]; subst. unfold in_bounds in Hk; cbn in Hk.
    cbn [foldl]. apply elem_of_cons in Hin as [Heq|Hin].
    + inversion Heq; subst k0 v0.
      rewrite writes_untouched.
      * unfold write; cbn. apply list_lookup_insert_eq. lia.
      * intros [k' v'] Hs' Heqk. cbn in Heqk. apply Hk0.
        assert (0 <= k') by (rewrite Forall_forall in Hrest; apply (Hrest _ Hs')).
        assert (k' = k) by lia. subst k'.
        apply (list_elem_of_fmap_2 fst) in Hs'. exact Hs'.
    + apply IH; [assumption| |assumption].
      unfold write; cbn. now rewrite length_insert.
Qed.

Lemma write_commute b s1 s2 :
  0 <= s1.1 -> 0 <= s2.1 -> s1.1 ≠ s2.1 -> write (write b s1) s2 = write (write b s2) s1.
Proof.
  intros H1 H2 Hne. unfold write. apply list_insert_insert_ne. lia.
Qed.

Lemma writes_perm s s' b :
  s ≡ₚ s' -> NoDup (fst <$> s) -> Forall (fun x => 0 <= x.1) s ->
  foldl write b s = foldl write b s'.
Proof.
  intros Hp. revert b. induction Hp as [|x l l' Hp IH|x y l|l l' l'' Hp1 IH1 Hp2 IH2];
    intros b Hnd Hpos.
  - reflexivity.
  - cbn [foldl]. rewrite !fmap_cons in Hnd. apply NoDup_cons in Hnd as [_ Hnd].
    inversion Hpos; subst. now apply IH.
  - cbn [foldl]. f_equal. rewrite !fmap_cons in Hnd.
    apply NoDup_cons in Hnd as [Hy Hnd]. apply NoDup_cons in Hnd as [_ _].
    inversion Hpos as [|? ? Hy0 Hpos']; subst. inversion Hpos' as [|? ? Hx0 _]; subst.
    apply write_commute; [assumption..|].
    intros E. apply Hy. rewrite E. left.
  - rewrite IH1 by assumption. apply IH2.
    + now rewrite <- Hp1.
    + now rewrite <- Hp1.
Qed.

Lemma julia_point_01 w h xl xr yb yt i j :
  julia_point w h xl xr yb yt i j = 0 \/ julia_point w h xl xr yb yt i j = 1.
Proof.
  unfold julia_point, julia_run.
  destruct (julia_loop_cases 200 (point_x w xl xr i, point_y h yb yt j))
    as [[Hl _]|(k & Hk & _ & Hl)]; rewrite Hl; cbn [fst snd]; auto.
Qed.

Lemma offset_exact W H i j :
  1 <= W -> 1 <= H -> fits W H -> 0 <= i < W -> 0 <= j < H ->
  offset W i j = 3 * (j * W + i).
Proof.
  unfold fits, Int.INT_MAX. intros HW HH Hfit Hi Hj.
  assert (0 <= j * W) by nia.
  assert (j * W + i < W * H) by nia.
  unfold offset, Int.mul, Int.add.
  rewrite (wrap_id (j * W)) by (unfold Int.in_range, Int.INT_MIN, Int.INT_MAX; nia).
  rewrite (wrap_id (j * W + i)) by (unfold Int.in_range, Int.INT_MIN, Int.INT_MAX; nia).
  rewrite wrap_id by (unfold Int.in_range, Int.INT_MIN, Int.INT_MAX; nia).
  lia.
Qed.

Lemma pixel_stores_exact W H xl xr yb yt i j :
  1 <= W -> 1 <= H -> fits W H -> 0 <= i < W -> 0 <= j < H ->
  pixel_stores W H xl xr yb yt j i =
    let k := 3 * (j * W + i) in
    let v := 255 * (1 - julia_point W H xl xr yb yt i j) in
    [(k, v); (k + 1, v); (k + 2, 255)].
Proof.
  intros HW HH Hfit Hi Hj. unfold pixel_stores.
  rewrite (offset_exact W H i j) by assumption.
  unfold fits, Int.INT_MAX in Hfit.
  assert (0 <= j * W) by nia.
  assert (j * W + i < W * H) by nia.
  unfold Int.mul, Int.add, Int.sub.
  destruct (julia_point_01 W H xl xr yb yt i j) as [-> | ->];
    rewrite !wrap_id by (unfold Int.in_range, Int.INT_MIN, Int.INT_MAX;
                         rewrite ?wrap_id by (unfold Int.in_range, Int.INT_MIN, Int.INT_MAX; lia);
                         lia);
    reflexivity.
Qed.

Lemma stores_from_addresses n i0 (f : Z -> list (Z * Z)) base per :
  0 <= per ->
  (forall i, i0 <= i < i0 + Z.of_nat n -> fst <$> f i = seqZ (base + per * i) per) ->
  fst <$> stores_from n i0 f = seqZ (base + per * i0) (per * Z.of_nat n).
Proof.
  intros Hper. revert i0. induction n as [|n IH]; intros i0 Hf.
  - cbn [stores_from]. rewrite seqZ_nil by lia. reflexivity.
  - cbn [stores_from]. rewrite fmap_app, Hf by lia. rewrite IH by (intros i Hi; apply Hf; lia).
    replace (per * Z.of_nat (S n)) with (per + per * Z.of_nat n) by lia.
    rewrite seqZ_app by nia. do 2 f_equal. lia.
Qed.

Lemma elem_of_stores_from n i0 (f : Z -> list (Z * Z)) i x :
  i0 <= i < i0 + Z.of_nat n -> x ∈ f i -> x ∈ stores_from n i0 f.
Proof.
  revert i0. induction n as [|n IH]; intros i0 Hi Hx; [lia|].
  cbn [stores_from]. apply elem_of_app.
  destruct (decide (i = i0)) as [->|Hne]; [now left|].
  right. apply IH; [lia|assumption].
Qed.

Lemma pixel_in_render W H xl xr yb yt i j s :
  0 <= i < W -> 0 <= j < H ->
  s ∈ pixel_stores W H xl xr yb yt j i -> s ∈ render_stores W H xl xr yb yt.
Proof.
  intros Hi Hj Hs. unfold render_stores.
  apply (elem_of_stores_from _ 0 _ j); [lia|].
  unfold row_stores. apply (elem_of_stores_from _ 0 _ i); [lia|assumption].
Qed.

Section RenderFacts.
Variables (W H : Z) (xl xr yb yt : float).
Hypothesis (HW : 1 <= W) (HH : 1 <= H) (Hfit : fits W H).

Lemma row_addresses j :
  0 <= j < H -> fst <$> row_stores W H xl xr yb yt j = seqZ (3 * W * j) (3 * W).
Proof.
  intros Hj. unfold row_stores.
  rewrite (stores_from_addresses _ 0 _ (3 * W * j) 3); [|lia|].
  - f_equal; lia.
  - intros i Hi. rewrite pixel_stores_exact by (try assumption; lia).
    cbn [fmap list_fmap fst]. unfold seqZ.
    change (Z.to_nat 3) with 3%nat. cbn [seq fmap list_fmap].
    repeat (f_equal; try lia).
Qed.

Lemma render_addresses :
  fst <$> render_stores W H xl xr yb yt = seqZ 0 (3 * W * H).
Proof.
  unfold render_stores.
  rewrite (stores_from_addresses _ 0 _ 0 (3 * W)); [|lia|].
  - f_equal; lia.
  - intros j Hj. rewrite row_addresses by lia. f_equal; lia.
Qed.

Lemma render_in_bounds :
  Forall (in_bounds (3 * W * H)) (render_stores W H xl xr yb yt).
Proof.
  apply Forall_forall. intros [k v] Hin. unfold in_bounds. cbn.
  assert (Hk : k ∈ fst <$> render_stores W H xl xr yb yt).
  { now apply (list_elem_of_fmap_2 fst) in Hin. }
  rewrite render_addresses in Hk. apply elem_of_seqZ in Hk. lia.
Qed.

Lemma alloc_size_exact : alloc_size W H = 3 * W * H.
Proof.
  unfold fits, Int.INT_MAX in Hfit.
  unfold alloc_size, Int.to_size_t, Int.mul.
  assert (0 <= W * H) by nia.
  rewrite (wrap_id (W * H)) by (unfold Int.in_range, Int.INT_MIN, Int.INT_MAX; nia).
  rewrite wrap_id by (unfold Int.in_range, Int.INT_MIN, Int.INT_MAX; nia).
  rewrite Z.mul_1_r, Z.mod_mod by lia. rewrite Z.mod_small; nia.
Qed.

Lemma julia_rgb_writes malloc b0 :
  allocator_ok malloc -> malloc (alloc_size W H) = Some b0 ->
  julia_rgb W H xl xr yb yt malloc
  = Done (Some (foldl write b0 (render_stores W H xl xr yb yt)))
  /\ Z.of_nat (length b0) = 3 * W * H.
Proof.
  intros Hok Hm. pose proof (Hok _ _ Hm) as Hlen. rewrite alloc_size_exact in Hlen.
  split; [|assumption].
  rewrite julia_rgb_exec, Hm. apply exec_in_bounds. rewrite Hlen.
  apply render_in_bounds.
Qed.
End RenderFacts.

Lemma writes_in_order stores pre suf :
  fst <$> stores = seqZ (Z.of_nat (length pre)) (Z.of_nat (length suf)) ->
  foldl write (pre ++ suf) stores = pre ++ ((fun s => Int.to_uchar s.2) <$> stores).
Proof.
  revert pre suf. induction stores as [|[k v] stores IH]; intros pre suf Hs.
  - destruct suf as [|x suf]; [reflexivity|].
    rewrite seqZ_cons in Hs by (cbn [length]; lia). discriminate Hs.
  - destruct suf as [|x suf]; [discriminate Hs|].
    rewrite seqZ_cons in Hs by (cbn [length]; lia).
    rewrite fmap_cons in Hs. injection Hs as Hk Hs. cbn [fst] in Hk. subst k.
    cbn [foldl]. unfold write at 2. cbn [fst snd].
    rewrite Nat2Z.id.
    replace (length pre) with (length pre + 0)%nat at 1 by lia.
    rewrite insert_app_r. cbn [insert list_insert].
    rewrite (cons_middle _ pre suf), app_assoc.
    rewrite IH.
    + rewrite <- app_assoc. reflexivity.
    + rewrite Hs, length_app. cbn [length]. f_equal; lia.
Qed.

Lemma concat_nils {A} (tasks : list (list A)) :
  Forall (fun t => t = []) tasks -> concat tasks = [].
Proof. induction 1 as [|t tasks -> _ IH]; [reflexivity|exact IH]. Qed.

Lemma interleaving_Permutation {A} (tasks : list (list A)) tr :
  interleaving tasks tr -> concat tasks ≡ₚ tr.
Proof.
  induction 1 as [tasks Hnil|before after x t tr _ IH].
  - now rewrite concat_nils.
  - rewrite concat_app in *. cbn [concat] in *.
    rewrite <- IH. rewrite <- app_comm_cons. symmetry. apply Permutation_middle.
Qed.

Lemma stores_from_concat n i (f : Z -> list (Z * Z)) :
  stores_from n i f = concat (f <$> seqZ i (Z.of_nat n)).
Proof.
  revert i. induction n as [|n IH]; intros i; [reflexivity|].
  rewrite seqZ_cons by lia. cbn [stores_from]. rewrite fmap_cons. cbn [concat].
  rewrite IH, Nat2Z.inj_succ, Z.pred_succ, Z.add_1_r. reflexivity.
Qed.

Lemma render_stores_tasks w h xl xr yb yt :
  render_stores w h xl xr yb yt = concat (row_tasks w h xl xr yb yt).
Proof.
  unfold render_stores, row_tasks. rewrite stores_from_concat.
  destruct (decide (0 <= h)) as [Hh|Hh].
  - now rewrite Z2Nat.id.
  - rewrite (seqZ_nil 0 h) by lia. replace (Z.to_nat h) with 0%nat by lia. reflexivity.
Qed.

(** Claim C2, amended.  For every [1 < W], [1 < H] whose byte count
    [3 * W * H] fits an [int], when the allocation succeeds the buffer
    returned by [julia_rgb] has length [3 * W * H], and for every pixel
    the bytes at [k = 3 * (j * W + i)] and [k + 1] are 255 if the pixel
    escaped and 0 if it is in the set, and the byte at [k + 2] is 255. *)
Theorem C2_julia_rgb_pixels W H xl xr yb yt malloc b0 :
  1 < W -> 1 < H -> fits W H ->
  allocator_ok malloc -> malloc (alloc_size W H) = Some b0 ->
  exists rgb,
    julia_rgb W H xl xr yb yt malloc = Done (Some rgb)
    /\ Z.of_nat (length rgb) = 3 * W * H
    /\ forall i j, 0 <= i < W -> 0 <= j < H ->
         let k := 3 * (j * W + i) in
         let c := pixel_colour (julia_point W H xl xr yb yt i j) in
         rgb !! Z.to_nat k = Some c
         /\ rgb !! Z.to_nat (k + 1) = Some c
         /\ rgb !! Z.to_nat (k + 2) = Some 255.
Proof.
  intros HW HH Hfit Hok Hm.
  destruct (julia_rgb_writes W H xl xr yb yt ltac:(lia) ltac:(lia) Hfit malloc b0 Hok Hm)
    as [Hrun Hlen].
  eexists. split; [exact Hrun|]. split; [now rewrite length_writes|].
  intros i j Hi Hj. cbv zeta.
  assert (Hnd : NoDup (fst <$> render_stores W H xl xr yb yt)).
  { rewrite render_addresses by (try assumption; lia). apply NoDup_seqZ. }
  assert (Hb : Forall (in_bounds (Z.of_nat (length b0))) (render_stores W H xl xr yb yt)).
  { rewrite Hlen. apply render_in_bounds; (try assumption; lia). }
  assert (Hpix : forall s, s ∈ pixel_stores W H xl xr yb yt j i ->
            foldl write b0 (render_stores W H xl xr yb yt) !! Z.to_nat s.1
            = Some (Int.to_uchar s.2)).
  { intros [k' v'] Hs. apply writes_lookup; [assumption..|].
    apply (pixel_in_render W H xl xr yb yt i j); assumption. }
  rewrite pixel_stores_exact in Hpix by (try assumption; lia). cbv zeta in Hpix.
  pose proof (julia_point_01 W H xl xr yb yt i j) as H01.
  revert Hpix H01. generalize (julia_point W H xl xr yb yt i j) as v.
  generalize (foldl write b0 (render_stores W H xl xr yb yt)) as rgb.
  intros rgb v Hpix H01.
  assert (Hc : Int.to_uchar (255 * (1 - v)) = pixel_colour v).
  { destruct H01 as [-> | ->]; reflexivity. }
  rewrite <- Hc. split; [|split].
  - apply (Hpix (3 * (j * W + i), 255 * (1 - v))). apply list_elem_of_here.
  - apply (Hpix (3 * (j * W + i) + 1, 255 * (1 - v))).
    apply list_elem_of_further, list_elem_of_here.
  - apply (Hpix (3 * (j * W + i) + 2, 255)).
    do 2 apply list_elem_of_further. apply list_elem_of_here.
Qed.

Lemma C2_witness :
  (1 < 2 /\ fits 2 2 /\ allocator_ok zeros
   /\ zeros (alloc_size 2 2) = Some (replicate 12 0))
  /\ exists rgb,
       julia_rgb 2 2 minus_1_5 plus_1_5 minus_1_5 plus_1_5 zeros = Done (Some rgb)
       /\ Z.of_nat (length rgb) = 3 * 2 * 2
       /\ forall i j, 0 <= i < 2 -> 0 <= j < 2 ->
            let k := 3 * (j * 2 + i) in
            let c := pixel_colour
                       (julia_point 2 2 minus_1_5 plus_1_5 minus_1_5 plus_1_5 i j) in
            rgb !! Z.to_nat k = Some c
            /\ rgb !! Z.to_nat (k + 1) = Some c
            /\ rgb !! Z.to_nat (k + 2) = Some 255.
Proof.
  assert (HW : 1 < 2) by lia.
  assert (Hf : fits 2 2) by (unfold fits, Int.INT_MAX; lia).
  assert (Hm : zeros (alloc_size 2 2) = Some (replicate 12 0)) by reflexivity.
  split; [repeat apply conj; first [assumption | exact zeros_ok]|].
  apply (C2_julia_rgb_pixels 2 2 minus_1_5 plus_1_5 minus_1_5 plus_1_5 zeros
           (replicate 12 0) HW HW Hf zeros_ok Hm).
Defined.


(** Claim C5, amended.  For every [1 <= W], [1 <= H] whose byte count
    [3 * W * H] fits an [int], the offset map is injective on the grid,
    the three positions of a pixel lie in [[0, 3 * W * H)], and the
    stores of the whole loop go to the positions [0, 1, ..., 3*W*H - 1],
    each exactly once (no position twice, none left out, none outside
    the block); the run performs stores only, and completes. *)
Theorem C5_disjoint_writes W H xl xr yb yt :
  1 <= W -> 1 <= H -> fits W H ->
  (forall i j i' j', 0 <= i < W -> 0 <= j < H -> 0 <= i' < W -> 0 <= j' < H ->
     offset W i j = offset W i' j' -> i = i' /\ j = j')
  /\ (forall i j, 0 <= i < W -> 0 <= j < H ->
        fst <$> pixel_stores W H xl xr yb yt j i
          = [offset W i j; offset W i j + 1; offset W i j + 2]
        /\ 0 <= offset W i j /\ offset W i j + 2 < 3 * W * H)
  /\ fst <$> render_stores W H xl xr yb yt = seqZ 0 (3 * W * H)
  /\ NoDup (fst <$> render_stores W H xl xr yb yt)
  /\ (forall k, k ∈ fst <$> render_stores W H xl xr yb yt <-> 0 <= k < 3 * W * H)
  /\ (forall malloc b0, allocator_ok malloc -> malloc (alloc_size W H) = Some b0 ->
        exists rgb, julia_rgb W H xl xr yb yt malloc = Done (Some rgb)).
Proof.
  intros HW HH Hfit.
  pose proof (render_addresses W H xl xr yb yt HW HH Hfit) as Haddr.
  split; [|split; [|split; [|split; [|split]]]].
  - intros i j i' j' Hi Hj Hi' Hj' E.
    rewrite !(offset_exact W H) in E by assumption.
    assert (j = j') by nia. subst j'. split; lia.
  - intros i j Hi Hj. rewrite pixel_stores_exact by assumption.
    rewrite (offset_exact W H) by assumption. cbn.
    split; [reflexivity|]. unfold fits in Hfit. nia.
  - exact Haddr.
  - rewrite Haddr. apply NoDup_seqZ.
  - intros k. rewrite Haddr, elem_of_seqZ. lia.
  - intros malloc b0 Hok Hm. eexists.
    apply (julia_rgb_writes W H xl xr yb yt HW HH Hfit malloc b0 Hok Hm).
Qed.

Lemma C5_witness :
  (1 <= 2 /\ fits 2 2)
  /\ fst <$> render_stores 2 2 minus_1_5 plus_1_5 minus_1_5 plus_1_5 = seqZ 0 (3 * 2 * 2).
Proof.
  assert (HW : 1 <= 2) by lia.
  assert (Hf : fits 2 2) by (unfold fits, Int.INT_MAX; lia).
  split; [split; assumption|].
  apply (C5_disjoint_writes 2 2 minus_1_5 plus_1_5 minus_1_5 plus_1_5 HW HW Hf).
Defined.


(** Claim C6.  The rendered buffer is a function of [(W, H, xl, xr, yb,
    yt)] alone: it does not depend on the allocator or on the initial
    content of the block, and every execution by several workers (any
    interleaving of the stores of the rows) ends with the same buffer as
    the execution by a single worker. *)
Theorem C6_schedule_independence W H xl xr yb yt malloc b0 tr :
  1 <= W -> 1 <= H -> fits W H ->
  allocator_ok malloc -> malloc (alloc_size W H) = Some b0 ->
  interleaving (row_tasks W H xl xr yb yt) tr ->
  exec tr (Some b0) = julia_rgb W H xl xr yb yt malloc
  /\ julia_rgb W H xl xr yb yt malloc
     = Done (Some ((fun s => Int.to_uchar s.2) <$> render_stores W H xl xr yb yt)).
Proof.
  intros HW HH Hfit Hok Hm Htr.
  destruct (julia_rgb_writes W H xl xr yb yt HW HH Hfit malloc b0 Hok Hm) as [Hrun Hlen].
  pose proof (render_addresses W H xl xr yb yt HW HH Hfit) as Haddr.
  pose proof (render_in_bounds W H xl xr yb yt HW HH Hfit) as Hb.
  apply interleaving_Permutation in Htr. rewrite <- render_stores_tasks in Htr.
  split.
  - rewrite Hrun. rewrite exec_in_bounds.
    + do 2 f_equal. symmetry. apply writes_perm; [assumption| |].
      * rewrite Haddr. apply NoDup_seqZ.
      * eapply Forall_impl; [exact Hb|]. intros s Hs. apply Hs.
    + rewrite <- Htr, Hlen. exact Hb.
  - rewrite Hrun. do 2 f_equal.
    apply (writes_in_order _ [] b0). cbn [length]. rewrite Haddr. f_equal; lia.
Qed.

Lemma interleaving_prefix {A} (before after : list (list A)) (p t tr : list A) :
  interleaving (before ++ t :: after) tr ->
  interleaving (before ++ (p ++ t) :: after) (p ++ tr).
Proof.
  intros Ht. induction p as [|x p IH]; [exact Ht|].
  cbn [app]. apply interleaving_step, IH.
Qed.

(** Two tasks run one after the other, the second one first. *)
Lemma interleaving_swap {A} (t1 t2 : list A) : interleaving [t1; t2] (t2 ++ t1).
Proof.
  rewrite <- (app_nil_r t2) at 1.
  apply (interleaving_prefix [t1] [] t2 [] t1).
  rewrite <- (app_nil_r t1).
  apply (interleaving_prefix [] [[]] t1 [] []).
  apply interleaving_done. repeat constructor.
Qed.

Lemma C6_witness :
  (1 <= 2 /\ fits 2 2 /\ allocator_ok zeros
   /\ zeros (alloc_size 2 2) = Some (replicate 12 0)
   /\ interleaving (row_tasks 2 2 minus_1_5 plus_1_5 minus_1_5 plus_1_5)
        (row_stores 2 2 minus_1_5 plus_1_5 minus_1_5 plus_1_5 1
         ++ row_stores 2 2 minus_1_5 plus_1_5 minus_1_5 plus_1_5 0))
  /\ exec (row_stores 2 2 minus_1_5 plus_1_5 minus_1_5 plus_1_5 1
           ++ row_stores 2 2 minus_1_5 plus_1_5 minus_1_5 plus_1_5 0)
          (Some (replicate 12 0))
     = julia_rgb 2 2 minus_1_5 plus_1_5 minus_1_5 plus_1_5 zeros.
Proof.
  assert (HW : 1 <= 2) by lia.
  assert (Hf : fits 2 2) by (unfold fits, Int.INT_MAX; lia).
  assert (Hm : zeros (alloc_size 2 2) = Some (replicate 12 0)) by reflexivity.
  assert (Hi : interleaving (row_tasks 2 2 minus_1_5 plus_1_5 minus_1_5 plus_1_5)
        (row_stores 2 2 minus_1_5 plus_1_5 minus_1_5 plus_1_5 1
         ++ row_stores 2 2 minus_1_5 plus_1_5 minus_1_5 plus_1_5 0))
    by apply interleaving_swap.
  split; [repeat apply conj; first [assumption | exact zeros_ok]|].
  apply (C6_schedule_independence 2 2 minus_1_5 plus_1_5 minus_1_5 plus_1_5 zeros
           (replicate 12 0) _ HW HW Hf zeros_ok Hm Hi).
Defined.


(** ** The encoder *)

Lemma tga_write_unfold w h rgb :
  tga_write w h rgb =
    if decide (tga_count w h <= Z.of_nat (length rgb))
    then Done (header1 ++ header2 w h ++ take (Z.to_nat (tga_count w h)) rgb)
    else Fault ReadOutOfBounds.
Proof.
  unfold tga_write, fwrite at 1 2. cbn [bind header1 header2 length map decide].
  unfold fwrite, tga_count. reflexivity.
Qed.

Lemma take_length_Z (l : list Z) c :
  0 <= c <= Z.of_nat (length l) -> Z.of_nat (length (take (Z.to_nat c) l)) = c.
Proof. intros Hc. rewrite length_take. lia. Qed.

Lemma tga_count_nonneg w h : 0 <= tga_count w h.
Proof. unfold tga_count, Int.to_size_t. apply Z.mod_pos_bound. lia. Qed.

Lemma tga_write_length w h rgb out :
  tga_write w h rgb = Done out -> Z.of_nat (length out) = 18 + tga_count w h.
Proof.
  rewrite tga_write_unfold. destruct (decide _) as [Hc|]; [|discriminate].
  intros [= <-]. cbn [length]. rewrite !Nat2Z.inj_succ.
  rewrite take_length_Z by (pose proof (tga_count_nonneg w h); lia). lia.
Qed.

Lemma tga_count_exact W H : 0 <= W -> 0 <= H -> fits W H -> tga_count W H = 3 * W * H.
Proof.
  unfold fits, Int.INT_MAX. intros HW HH Hfit.
  unfold tga_count, Int.to_size_t, Int.mul.
  destruct (decide (H = 0)) as [->|Hne].
  - rewrite !Z.mul_0_r. reflexivity.
  - rewrite (wrap_small (3 * W)) by nia. rewrite wrap_small by nia.
    apply Z.mod_small. nia.
Qed.

Lemma header2_exact W H :
  0 <= W < 65536 -> 0 <= H < 65536 ->
  header2 W H = [W mod 256; W / 256; H mod 256; H / 256; 24; 0].
Proof.
  intros HW HH. unfold header2, Int.rem, Int.div, Int.to_uchar. cbn [map].
  rewrite !Z.rem_mod_nonneg, !Z.quot_div_nonneg by lia.
  assert (0 <= W / 256 < 256) by (split; [apply Z.div_pos; lia | apply Z.div_lt_upper_bound; lia]).
  assert (0 <= H / 256 < 256) by (split; [apply Z.div_pos; lia | apply Z.div_lt_upper_bound; lia]).
  rewrite !wrap_small by lia.
  rewrite !Z.mod_mod by lia. rewrite (Z.mod_small (W / 256)), (Z.mod_small (H / 256)) by lia.
  reflexivity.
Qed.

(** Claim C3, amended.  For every [0 <= W < 65536] and [0 <= H < 65536]
    whose byte count [3 * W * H] fits an [int], the file written by
    [tga_write] is the 12 bytes of [header1], then [W mod 256; W / 256;
    H mod 256; H / 256; 24; 0], then the [3 * W * H] bytes of the pixel
    buffer; it has [18 + 3 * W * H] bytes, 30 for [W = H = 2], and for
    [W = 300], [H = 10] the second header is [44; 1; 10; 0; 24; 0]. *)
Theorem C3_tga_write_layout W H rgb :
  0 <= W < 65536 -> 0 <= H < 65536 -> fits W H ->
  Z.of_nat (length rgb) = 3 * W * H ->
  tga_write W H rgb
    = Done (header1 ++ [W mod 256; W / 256; H mod 256; H / 256; 24; 0] ++ rgb)
  /\ Z.of_nat (length (header1 ++ [W mod 256; W / 256; H mod 256; H / 256; 24; 0] ++ rgb))
     = 18 + 3 * W * H
  /\ (W = 2 -> H = 2 ->
      length (header1 ++ [W mod 256; W / 256; H mod 256; H / 256; 24; 0] ++ rgb) = 30%nat)
  /\ header2 300 10 = [44; 1; 10; 0; 24; 0].
Proof.
  intros HW HH Hfit Hlen.
  assert (Hrun : tga_write W H rgb
    = Done (header1 ++ [W mod 256; W / 256; H mod 256; H / 256; 24; 0] ++ rgb)).
  { rewrite tga_write_unfold, tga_count_exact by (try assumption; lia).
    rewrite decide_True by lia. rewrite header2_exact by assumption.
    rewrite take_ge by lia. reflexivity. }
  pose proof (tga_write_length _ _ _ _ Hrun) as Hl.
  rewrite tga_count_exact in Hl by (try assumption; lia).
  split; [exact Hrun|]. split; [exact Hl|]. split; [|reflexivity].
  intros -> ->. lia.
Qed.

Lemma C3_witness :
  (0 <= 2 < 65536 /\ fits 2 2 /\ Z.of_nat (length [255; 255; 255; 0; 0; 255; 0; 0; 255; 255; 255; 255]) = 3 * 2 * 2)
  /\ tga_write 2 2 [255; 255; 255; 0; 0; 255; 0; 0; 255; 255; 255; 255]
     = Done (header1 ++ [2; 0; 2; 0; 24; 0]
               ++ [255; 255; 255; 0; 0; 255; 0; 0; 255; 255; 255; 255]).
Proof.
  assert (Hf : fits 2 2) by (unfold fits, Int.INT_MAX; lia).
  split; [split; [lia | split; [exact Hf | reflexivity]]|].
  apply (C3_tga_write_layout 2 2 [255; 255; 255; 0; 0; 255; 0; 0; 255; 255; 255; 255]);
    [lia | lia | exact Hf | reflexivity].
Defined.

Lemma C3_counterexample :
  Z.of_nat (length wide_buffer) = 3 * 32768 * 49152
  /\ exists out, tga_write 32768 49152 wide_buffer = Done out
       /\ Z.of_nat (length out) = 18 + 536870912
       /\ Z.of_nat (length out) <> 18 + 3 * 32768 * 49152.
Proof.
  assert (Hlen : Z.of_nat (length wide_buffer) = 4831838208).
  { unfold wide_buffer. rewrite length_replicate. apply Z2Nat.id. lia. }
  assert (Hc : tga_count 32768 49152 = 536870912) by reflexivity.
  split; [rewrite Hlen; lia|].
  pose proof (tga_write_unfold 32768 49152 wide_buffer) as Hw.
  rewrite Hc in Hw. rewrite decide_True in Hw by (rewrite Hlen; lia).
  eexists. split; [exact Hw|].
  pose proof (tga_write_length _ _ _ _ Hw) as Hl. rewrite Hc in Hl.
  split; [exact Hl|]. rewrite Hl. lia.
Qed.

Lemma offset_origin W : offset W 0 0 = 0.
Proof. unfold offset, Int.mul, Int.add. rewrite Z.mul_0_l. reflexivity. Qed.

Lemma stores_from_nil n i (f : Z -> list (Z * Z)) :
  (forall j, f j = []) -> stores_from n i f = [].
Proof.
  intros Hf. revert i. induction n as [|n IH]; intros i; [reflexivity|].
  cbn [stores_from]. now rewrite Hf, IH.
Qed.

Lemma render_stores_first W H xl xr yb yt :
  1 <= W -> 1 <= H ->
  exists v rest, render_stores W H xl xr yb yt = (0, v) :: rest.
Proof.
  intros HW HH. unfold render_stores, row_stores.
  destruct (Z.to_nat H) as [|n] eqn:En; [lia|].
  destruct (Z.to_nat W) as [|m] eqn:Em; [lia|].
  cbn [stores_from]. unfold pixel_stores at 1. rewrite offset_origin.
  cbn [app]. eauto.
Qed.

(** Claim C9, amended.  [julia_rgb] does not test what [malloc]
    returned.  When the allocation fails and the grid is not empty, the
    fill loop is entered and its first store, at offset 0, goes through
    the null pointer; when the grid is empty the null pointer is
    returned. *)
Theorem C9_allocation_failure W H xl xr yb yt malloc :
  malloc (alloc_size W H) = None ->
  (1 <= W -> 1 <= H -> julia_rgb W H xl xr yb yt malloc = Fault (NullStore 0))
  /\ (W <= 0 \/ H <= 0 -> julia_rgb W H xl xr yb yt malloc = Done None).
Proof.
  intros Hm. rewrite julia_rgb_exec, Hm. split.
  - intros HW HH.
    destruct (render_stores_first W H xl xr yb yt HW HH) as (v & rest & ->).
    reflexivity.
  - intros Hempty. unfold render_stores, row_stores.
    destruct Hempty as [HW|HH].
    + replace (Z.to_nat W) with 0%nat by lia. cbn [stores_from].
      rewrite stores_from_nil by reflexivity. reflexivity.
    + replace (Z.to_nat H) with 0%nat by lia. reflexivity.
Qed.

Lemma C9_witness :
  no_memory (alloc_size 2 2) = None
  /\ julia_rgb 2 2 minus_1_5 plus_1_5 minus_1_5 plus_1_5 no_memory = Fault (NullStore 0).
Proof.
  split; [reflexivity|].
  apply (C9_allocation_failure 2 2 minus_1_5 plus_1_5 minus_1_5 plus_1_5 no_memory);
    [reflexivity | lia | lia].
Defined.

Lemma C9_counterexample :
  julia_rgb 20000 20000 minus_1_5 plus_1_5 minus_1_5 plus_1_5 no_memory
  = Fault (NullStore 0).
Proof. vm_compute. reflexivity. Qed.

Lemma C2_counterexample :
  allocator_ok zeros
  /\ alloc_size 65536 65536 = 0
  /\ julia_rgb 65536 65536 minus_1_5 plus_1_5 minus_1_5 plus_1_5 zeros
     = Fault (StoreOutOfBounds 0).
Proof.
  split; [exact zeros_ok|]. split; [reflexivity|]. vm_compute. reflexivity.
Qed.

Lemma C5_counterexample :
  offset 65536 0 32768 = -2147483648
  /\ offset 65537 1 65535 = offset 65537 0 0.
Proof. split; reflexivity. Qed.




(** ** Exact products and the corner pixels *)

Lemma fexp_eq z : fexp F32.prec F32.emax z = Z.max (z - 24) (-149).
Proof. reflexivity. Qed.

Lemma digits2_size m : digits2_pos m = Pos.size m.
Proof. induction m as [m IH|m IH|]; cbn; now rewrite ?IH. Qed.

Lemma digits2_bounds m :
  2 ^ (Z.pos (digits2_pos m) - 1) <= Z.pos m < 2 ^ Z.pos (digits2_pos m).
Proof.
  rewrite digits2_size.
  assert (Hle : 2 ^ Z.pos (Pos.size m) <= 2 * Z.pos m).
  { change 2 with (Z.pos 2) at 1. rewrite <- Pos2Z.inj_pow.
    change (2 * Z.pos m) with (Z.pos (m~0)). apply Pos2Z.pos_le_pos, Pos.size_le. }
  assert (Hgt : Z.pos m < 2 ^ Z.pos (Pos.size m)).
  { change 2 with (Z.pos 2). rewrite <- Pos2Z.inj_pow. apply Pos2Z.pos_lt_pos, Pos.size_gt. }
  split; [|exact Hgt].
  replace (Z.pos (Pos.size m)) with (Z.succ (Z.pos (Pos.size m) - 1)) in Hle by lia.
  rewrite Z.pow_succ_r in Hle by lia. lia.
Qed.

Lemma shl_pos_value n m : Z.pos (shl_pos n m) = Z.pos m * 2 ^ Z.of_nat n.
Proof.
  induction n as [|n IH]; [cbn; lia|].
  cbn [shl_pos]. rewrite Pos2Z.inj_xO, IH, Nat2Z.inj_succ, Z.pow_succ_r by lia. lia.
Qed.

Lemma shl_pos_digits n m :
  Z.pos (digits2_pos (shl_pos n m)) = Z.pos (digits2_pos m) + Z.of_nat n.
Proof.
  induction n as [|n IH]; [cbn; lia|].
  cbn [shl_pos digits2_pos]. rewrite Pos2Z.inj_succ, IH. lia.
Qed.

Lemma iter_pos_nat {A} (f : A -> A) p x :
  SpecFloat.iter_pos f p x = Nat.iter (Pos.to_nat p) f x.
Proof.
  revert x. induction p as [p IH|p IH|]; intros x; cbn [SpecFloat.iter_pos].
  - rewrite !IH. rewrite Pos2Nat.inj_xI.
    replace (S (2 * Pos.to_nat p)) with (Pos.to_nat p + (Pos.to_nat p + 1))%nat by lia.
    rewrite !Nat.iter_add. reflexivity.
  - rewrite !IH. rewrite Pos2Nat.inj_xO.
    replace (2 * Pos.to_nat p)%nat with (Pos.to_nat p + Pos.to_nat p)%nat by lia.
    rewrite Nat.iter_add. reflexivity.
  - reflexivity.
Qed.

Lemma shr_exact n m :
  Nat.iter n shr_1 {| shr_m := Z.pos (shl_pos n m); shr_r := false; shr_s := false |}
  = {| shr_m := Z.pos m; shr_r := false; shr_s := false |}.
Proof.
  induction n as [|n IH]; [reflexivity|].
  rewrite Nat.iter_succ_r. cbn [shl_pos shr_1 orb]. exact IH.
Qed.

(** Rounding a significand that is a canonical one shifted left gives it back. *)
Lemma round_aux_shifted s m e n :
  bounded F32.prec F32.emax m e = true ->
  binary_round_aux F32.prec F32.emax s (Z.pos (shl_pos n m)) (e - Z.of_nat n) loc_Exact
  = S754_finite s m e.
Proof.
  unfold bounded, canonical_mantissa. intros Hb.
  apply andb_prop in Hb as [Hc He]. apply Z.eqb_eq in Hc. apply Z.leb_le in He.
  unfold binary_round_aux.
  assert (H1 : shr_fexp F32.prec F32.emax (Z.pos (shl_pos n m)) (e - Z.of_nat n) loc_Exact
               = ({| shr_m := Z.pos m; shr_r := false; shr_s := false |}, e)).
  { unfold shr_fexp. cbn [Zdigits2 shr_record_of_loc]. rewrite shl_pos_digits.
    replace (Z.pos (digits2_pos m) + Z.of_nat n + (e - Z.of_nat n))
      with (Z.pos (digits2_pos m) + e) by lia.
    rewrite Hc. unfold shr.
    destruct n as [|n].
    - replace (e - (e - Z.of_nat 0)) with 0 by lia. cbn [shl_pos]. f_equal. lia.
    - replace (e - (e - Z.of_nat (S n))) with (Z.pos (Pos.of_succ_nat n)) by lia.
      rewrite iter_pos_nat, SuccNat2Pos.id_succ, shr_exact. f_equal. lia. }
  rewrite H1. cbn [shr_m loc_of_shr_record round_nearest_even].
  assert (H2 : shr_fexp F32.prec F32.emax (Z.pos m) e loc_Exact
               = ({| shr_m := Z.pos m; shr_r := false; shr_s := false |}, e)).
  { unfold shr_fexp. cbn [Zdigits2 shr_record_of_loc]. rewrite Hc.
    rewrite Z.sub_diag. reflexivity. }
  rewrite H2. cbn [shr_m].
  apply Z.leb_le in He. rewrite He. reflexivity.
Qed.

Lemma fexp_mono a b : a <= b -> fexp F32.prec F32.emax a <= fexp F32.prec F32.emax b.
Proof. rewrite !fexp_eq. lia. Qed.

Lemma div_eucl_exact a b q : 0 < b -> a = b * q -> Z.div_eucl a b = (q, 0).
Proof.
  intros Hb ->.
  assert (Hq : (b * q) / b = q) by (rewrite Z.mul_comm; apply Z.div_mul; lia).
  assert (Hr : (b * q) mod b = 0) by (rewrite Z.mul_comm; apply Z.mod_mul; lia).
  unfold Z.div, Z.modulo in Hq, Hr. destruct (Z.div_eucl (b * q) b) as [q' r'].
  now subst.
Qed.

Lemma new_location_exact n : new_location n 0 = loc_Exact.
Proof. unfold new_location. destruct (Z.even n); reflexivity. Qed.

Lemma div_exact sp mp ep sn mn en m e :
  bounded F32.prec F32.emax m e = true ->
  same_value (Z.pos mp) ep (Z.pos mn * Z.pos m) (en + e) = true ->
  F32.div (S754_finite sp mp ep) (S754_finite sn mn en) = S754_finite (xorb sp sn) m e.
Proof.
  intros Hb Hv. unfold same_value in Hv. apply Z.eqb_eq in Hv.
  set (lo := Z.min ep (en + e)) in Hv.
  pose proof (digits2_bounds mp) as Dp. pose proof (digits2_bounds mn) as Dn.
  pose proof (digits2_bounds m) as Dm.
  set (d1 := Z.pos (digits2_pos mp)) in *. set (d2 := Z.pos (digits2_pos mn)) in *.
  set (dm := Z.pos (digits2_pos m)) in *.
  assert (Hc : fexp F32.prec F32.emax (dm + e) = e).
  { unfold bounded, canonical_mantissa in Hb. apply andb_prop in Hb as [Hc _].
    apply Z.eqb_eq in Hc. exact Hc. }
  (* magnitudes: d1 + ep <= d2 + dm + en + e *)
  assert (Hd : d1 + ep - (d2 + en) <= dm + e).
  { assert (Hlt : 2 ^ (d1 - 1 + (ep - lo)) < 2 ^ (d2 + dm + (en + e - lo))).
    { rewrite !Z.pow_add_r by lia.
      assert (0 < 2 ^ (ep - lo)) by (apply Z.pow_pos_nonneg; lia).
      assert (0 < 2 ^ (en + e - lo)) by (apply Z.pow_pos_nonneg; lia).
      assert (0 < 2 ^ d2) by (apply Z.pow_pos_nonneg; lia).
      assert (0 < 2 ^ dm) by (apply Z.pow_pos_nonneg; lia).
      assert (Z.pos mn * Z.pos m < 2 ^ d2 * 2 ^ dm) by nia.
      nia. }
    apply Z.pow_lt_mono_r_iff in Hlt; lia. }
  set (e' := Z.min (fexp F32.prec F32.emax (d1 + ep - (d2 + en))) (ep - en)).
  assert (He' : e' <= e).
  { pose proof (fexp_mono _ _ Hd). lia. }
  assert (He'' : e' <= ep - en) by lia.
  set (n := Z.to_nat (e - e')).
  assert (Hm' : Z.pos mp * 2 ^ (ep - en - e') = Z.pos mn * Z.pos (shl_pos n m)).
  { rewrite shl_pos_value. subst n. rewrite Z2Nat.id by lia.
    destruct (Z_le_gt_dec 0 (lo - en - e')) as [Ht|Ht].
    - replace (ep - en - e') with ((ep - lo) + (lo - en - e')) by lia.
      replace (e - e') with ((en + e - lo) + (lo - en - e')) by lia.
      rewrite !Z.pow_add_r by lia. nia.
    - assert (0 < 2 ^ (en + e' - lo)) by (apply Z.pow_pos_nonneg; lia).
      apply (Z.mul_reg_r _ _ (2 ^ (en + e' - lo))); [lia|].
      replace (ep - lo) with ((ep - en - e') + (en + e' - lo)) in Hv by lia.
      replace (en + e - lo) with ((e - e') + (en + e' - lo)) in Hv by lia.
      rewrite !Z.pow_add_r in Hv by lia. nia. }
  unfold F32.div, SFdiv, SFdiv_core_binary. cbn [Zdigits2]. fold d1 d2 e'.
  assert (Hdiv : Z.div_eucl
            match ep - en - e' with
            | 0 => Z.pos mp
            | Z.pos _ => Z.shiftl (Z.pos mp) (ep - en - e')
            | Z.neg _ => 0
            end (Z.pos mn) = (Z.pos (shl_pos n m), 0)).
  { apply div_eucl_exact; [lia|]. rewrite <- Hm'.
    destruct (ep - en - e') as [|p|p] eqn:Es.
    - cbn. lia.
    - rewrite Z.shiftl_mul_pow2 by lia. reflexivity.
    - lia. }
  rewrite Hdiv, new_location_exact.
  replace e' with (e - Z.of_nat n) by (subst n; lia).
  apply round_aux_shifted, Hb.
Qed.

Lemma round_aux_sign s m e l s' m' e' :
  binary_round_aux F32.prec F32.emax s m e l = S754_finite s' m' e' -> s' = s.
Proof.
  unfold binary_round_aux.
  destruct (shr_fexp _ _ m e l) as [mrs1 e1].
  destruct (shr_fexp _ _ _ e1 loc_Exact) as [mrs2 e2].
  destruct (shr_m mrs2); try discriminate.
  destruct (Z.leb _ _); [|discriminate]. now intros [= <- _ _].
Qed.

Lemma mul_div_roundtrip n x :
  valid_binary F32.prec F32.emax x = true -> exact_product n x = true ->
  F32.div (F32.mul n x) n = x
  /\ exists s m e, F32.mul n x = S754_finite s m e.
Proof.
  unfold exact_product. intros Hx He.
  destruct n as [| | |sn mn en]; try discriminate He.
  destruct x as [| | |s m e]; try discriminate He.
  destruct (F32.mul (S754_finite sn mn en) (S754_finite s m e)) as [| | |sp mp ep] eqn:Ep;
    try discriminate He.
  split; [|eauto].
  unfold F32.mul in Ep. cbn [SFmul] in Ep. apply round_aux_sign in Ep. subst sp.
  rewrite (div_exact _ mp ep sn mn en m e Hx He).
  f_equal. destruct sn, s; reflexivity.
Qed.

Lemma of_int_zero : F32.of_int 0 = S754_zero false.
Proof. reflexivity. Qed.

Lemma exact_product_finite n x :
  exact_product n x = true -> exists s m e, x = S754_finite s m e.
Proof.
  unfold exact_product. destruct n; try discriminate. destruct x; try discriminate. eauto.
Qed.

Lemma point_x_first W xl xr :
  1 < W <= Int.INT_MAX ->
  valid_binary F32.prec F32.emax xl = true ->
  exact_product (F32.of_int (W - 1)) xl = true ->
  F32.is_finite xr = true ->
  point_x W xl xr 0 = xl.
Proof.
  unfold Int.INT_MAX. intros HW Hv He Hr.
  destruct (mul_div_roundtrip _ _ Hv He) as [Hrt (s & m & e & Hp)].
  unfold point_x, Int.sub. rewrite Z.sub_0_r.
  rewrite (wrap_small W), (wrap_small (W - 1)) by lia.
  rewrite of_int_zero, Hp.
  assert (Hz : exists sz, F32.mul (S754_zero false) xr = S754_zero sz).
  { destruct xr as [sr| | |sr mr er]; try discriminate Hr; cbn; eauto. }
  destruct Hz as [sz ->].
  change (F32.add (S754_finite s m e) (S754_zero sz)) with (S754_finite s m e).
  rewrite <- Hp. exact Hrt.
Qed.

Lemma point_x_last W xl xr :
  1 < W <= Int.INT_MAX ->
  valid_binary F32.prec F32.emax xr = true ->
  exact_product (F32.of_int (W - 1)) xr = true ->
  F32.is_finite xl = true ->
  point_x W xl xr (W - 1) = xr.
Proof.
  unfold Int.INT_MAX. intros HW Hv He Hl.
  destruct (mul_div_roundtrip _ _ Hv He) as [Hrt (s & m & e & Hp)].
  unfold point_x, Int.sub.
  rewrite (wrap_small (W - (W - 1))), (wrap_small (W - 1)) by lia.
  replace (W - (W - 1) - 1) with 0 by lia. change (Int.wrap 0) with 0.
  rewrite of_int_zero, Hp.
  assert (Hz : exists sz, F32.mul (S754_zero false) xl = S754_zero sz).
  { destruct xl as [sl| | |sl ml el]; try discriminate Hl; cbn; eauto. }
  destruct Hz as [sz ->].
  change (F32.add (S754_zero sz) (S754_finite s m e)) with (S754_finite s m e).
  rewrite <- Hp. exact Hrt.
Qed.

Lemma exact_product_is_finite n x : exact_product n x = true -> F32.is_finite x = true.
Proof. intros H. destruct (exact_product_finite n x H) as (s & m & e & ->). reflexivity. Qed.

(** Claim C4, amended.  For [1 < W], [1 < H] and finite non-zero
    binary32 bounds whose products with [(float)(W - 1)] and
    [(float)(H - 1)] are computed without rounding, pixel [(0, 0)] is
    mapped exactly to [(xl, yb)] and pixel [(W - 1, H - 1)] exactly to
    [(xr, yt)]. *)
Theorem C4_corner_mapping W H xl xr yb yt :
  1 < W <= Int.INT_MAX -> 1 < H <= Int.INT_MAX ->
  valid_binary F32.prec F32.emax xl = true -> valid_binary F32.prec F32.emax xr = true ->
  valid_binary F32.prec F32.emax yb = true -> valid_binary F32.prec F32.emax yt = true ->
  exact_product (F32.of_int (W - 1)) xl = true ->
  exact_product (F32.of_int (W - 1)) xr = true ->
  exact_product (F32.of_int (H - 1)) yb = true ->
  exact_product (F32.of_int (H - 1)) yt = true ->
  (point_x W xl xr 0, point_y H yb yt 0) = (xl, yb)
  /\ (point_x W xl xr (W - 1), point_y H yb yt (H - 1)) = (xr, yt).
Proof.
  intros HW HH Vxl Vxr Vyb Vyt Exl Exr Eyb Eyt.
  change (point_y H yb yt) with (point_x H yb yt).
  rewrite !point_x_first, !point_x_last;
    eauto using exact_product_is_finite.
Qed.

Lemma C4_witness :
  (1 < 20000 <= Int.INT_MAX
   /\ valid_binary F32.prec F32.emax minus_1_5 = true
   /\ valid_binary F32.prec F32.emax plus_1_5 = true
   /\ exact_product (F32.of_int (20000 - 1)) minus_1_5 = true
   /\ exact_product (F32.of_int (20000 - 1)) plus_1_5 = true)
  /\ (point_x 20000 minus_1_5 plus_1_5 0, point_y 20000 minus_1_5 plus_1_5 0)
     = (minus_1_5, minus_1_5)
  /\ (point_x 20000 minus_1_5 plus_1_5 (20000 - 1),
      point_y 20000 minus_1_5 plus_1_5 (20000 - 1)) = (plus_1_5, plus_1_5).
Proof.
  assert (HW : 1 < 20000 <= Int.INT_MAX) by (unfold Int.INT_MAX; lia).
  split; [repeat split; try reflexivity; apply HW|].
  apply (C4_corner_mapping 20000 20000 minus_1_5 plus_1_5 minus_1_5 plus_1_5);
    first [exact HW | reflexivity].
Defined.

Lemma C4_counterexample :
  valid_binary F32.prec F32.emax minus_1_7 = true
  /\ valid_binary F32.prec F32.emax plus_1_7 = true
  /\ minus_1_7 = S754_finite true 14260634 (-23)
  /\ point_x 4 minus_1_7 plus_1_7 0 = S754_finite true 14260635 (-23)
  /\ point_x 4 minus_1_7 plus_1_7 0 <> minus_1_7.
Proof. repeat split. discriminate. Qed.

(** * Further properties of the program *)

Lemma rendered_pixel W H xl xr yb yt b0 i j :
  1 <= W -> 1 <= H -> fits W H -> Z.of_nat (length b0) = 3 * W * H ->
  0 <= i < W -> 0 <= j < H ->
  let rgb := foldl write b0 (render_stores W H xl xr yb yt) in
  let k := 3 * (j * W + i) in
  let c := pixel_colour (julia_point W H xl xr yb yt i j) in
  rgb !! Z.to_nat k = Some c
  /\ rgb !! Z.to_nat (k + 1) = Some c
  /\ rgb !! Z.to_nat (k + 2) = Some 255.
Proof.
  intros HW HH Hfit Hlen Hi Hj. cbv zeta.
  assert (Hnd : NoDup (fst <$> render_stores W H xl xr yb yt)).
  { rewrite render_addresses by assumption. apply NoDup_seqZ. }
  assert (Hb : Forall (in_bounds (Z.of_nat (length b0))) (render_stores W H xl xr yb yt)).
  { rewrite Hlen. apply render_in_bounds; assumption. }
  assert (Hpix : forall s, s ∈ pixel_stores W H xl xr yb yt j i ->
            foldl write b0 (render_stores W H xl xr yb yt) !! Z.to_nat s.1
            = Some (Int.to_uchar s.2)).
  { intros [k' v'] Hs. apply writes_lookup; [assumption..|].
    apply (pixel_in_render W H xl xr yb yt i j); assumption. }
  rewrite pixel_stores_exact in Hpix by assumption. cbv zeta in Hpix.
  pose proof (julia_point_01 W H xl xr yb yt i j) as H01.
  revert Hpix H01. generalize (julia_point W H xl xr yb yt i j) as v.
  generalize (foldl write b0 (render_stores W H xl xr yb yt)) as rgb.
  intros rgb v Hpix H01.
  assert (Hc : Int.to_uchar (255 * (1 - v)) = pixel_colour v).
  { destruct H01 as [-> | ->]; reflexivity. }
  rewrite <- Hc. split; [|split].
  - apply (Hpix (3 * (j * W + i), 255 * (1 - v))). apply list_elem_of_here.
  - apply (Hpix (3 * (j * W + i) + 1, 255 * (1 - v))).
    apply list_elem_of_further, list_elem_of_here.
  - apply (Hpix (3 * (j * W + i) + 2, 255)).
    do 2 apply list_elem_of_further. apply list_elem_of_here.
Qed.

Lemma tga_write_exact W H rgb :
  0 <= W < 65536 -> 0 <= H < 65536 -> fits W H ->
  Z.of_nat (length rgb) = 3 * W * H ->
  tga_write W H rgb
  = Done (header1 ++ [W mod 256; W / 256; H mod 256; H / 256; 24; 0] ++ rgb).
Proof.
  intros HW HH Hfit Hlen.
  rewrite tga_write_unfold, tga_count_exact by (try assumption; lia).
  rewrite decide_True by lia. rewrite header2_exact by assumption.
  rewrite take_ge by lia. reflexivity.
Qed.

(** Rendering then encoding.  For a grid [1 <= W, H < 65536] whose byte
    count fits an [int] and a successful allocation, the file written
    from the rendered buffer is the 18 header bytes followed by the
    buffer; pixel [(i, j)] occupies the file offsets [18 + 3 (j W + i)]
    and the next two, with its two colour bytes first and 255 last. *)
Theorem render_then_write W H xl xr yb yt malloc b0 :
  1 <= W < 65536 -> 1 <= H < 65536 -> fits W H ->
  allocator_ok malloc -> malloc (alloc_size W H) = Some b0 ->
  exists rgb file,
    julia_rgb W H xl xr yb yt malloc = Done (Some rgb)
    /\ tga_write W H rgb = Done file
    /\ file = header1 ++ [W mod 256; W / 256; H mod 256; H / 256; 24; 0] ++ rgb
    /\ Z.of_nat (length file) = 18 + 3 * W * H
    /\ forall i j, 0 <= i < W -> 0 <= j < H ->
         let k := 18 + 3 * (j * W + i) in
         let c := pixel_colour (julia_point W H xl xr yb yt i j) in
         file !! Z.to_nat k = Some c
         /\ file !! Z.to_nat (k + 1) = Some c
         /\ file !! Z.to_nat (k + 2) = Some 255.
Proof.
  intros HW HH Hfit Hok Hm.
  destruct (julia_rgb_writes W H xl xr yb yt ltac:(lia) ltac:(lia) Hfit malloc b0 Hok Hm)
    as [Hrun Hlen].
  set (rgb := foldl write b0 (render_stores W H xl xr yb yt)) in *.
  assert (Hl : Z.of_nat (length rgb) = 3 * W * H).
  { subst rgb. now rewrite length_writes. }
  pose proof (tga_write_exact W H rgb ltac:(lia) ltac:(lia) Hfit Hl) as Hw.
  exists rgb, (header1 ++ [W mod 256; W / 256; H mod 256; H / 256; 24; 0] ++ rgb).
  split; [exact Hrun|]. split; [exact Hw|]. split; [reflexivity|].
  split.
  { pose proof (tga_write_length _ _ _ _ Hw) as E.
    rewrite tga_count_exact in E by (try assumption; lia). exact E. }
  intros i j Hi Hj. cbv zeta.
  destruct (rendered_pixel W H xl xr yb yt b0 i j ltac:(lia) ltac:(lia) Hfit Hlen Hi Hj)
    as (P0 & P1 & P2). fold rgb in P0, P1, P2.
  assert (Hk : 0 <= 3 * (j * W + i)) by nia.
  assert (Hshift : forall d, 0 <= d ->
            (header1 ++ [W mod 256; W / 256; H mod 256; H / 256; 24; 0] ++ rgb)
              !! Z.to_nat (18 + d) = rgb !! Z.to_nat d).
  { intros d Hd. rewrite app_assoc.
    replace (Z.to_nat (18 + d)) with (18 + Z.to_nat d)%nat by lia.
    rewrite lookup_app_r by (cbn [length app header1]; lia).
    f_equal. cbn [length app header1]. lia. }
  replace (18 + 3 * (j * W + i) + 1) with (18 + (3 * (j * W + i) + 1)) by lia.
  replace (18 + 3 * (j * W + i) + 2) with (18 + (3 * (j * W + i) + 2)) by lia.
  rewrite !Hshift by lia. auto.
Qed.

Lemma render_then_write_witness :
  (1 <= 2 < 65536 /\ fits 2 2 /\ allocator_ok zeros
   /\ zeros (alloc_size 2 2) = Some (replicate 12 0))
  /\ exists rgb file,
    julia_rgb 2 2 minus_1_5 plus_1_5 minus_1_5 plus_1_5 zeros = Done (Some rgb)
    /\ tga_write 2 2 rgb = Done file
    /\ file = header1 ++ [2 mod 256; 2 / 256; 2 mod 256; 2 / 256; 24; 0] ++ rgb
    /\ Z.of_nat (length file) = 18 + 3 * 2 * 2
    /\ forall i j, 0 <= i < 2 -> 0 <= j < 2 ->
         let k := 18 + 3 * (j * 2 + i) in
         let c := pixel_colour (julia_point 2 2 minus_1_5 plus_1_5 minus_1_5 plus_1_5 i j) in
         file !! Z.to_nat k = Some c
         /\ file !! Z.to_nat (k + 1) = Some c
         /\ file !! Z.to_nat (k + 2) = Some 255.
Proof.
  assert (HW : 1 <= 2 < 65536) by lia.
  assert (Hf : fits 2 2) by (unfold fits, Int.INT_MAX; lia).
  assert (Hm : zeros (alloc_size 2 2) = Some (replicate 12 0)) by reflexivity.
  split; [repeat apply conj; first [assumption | exact zeros_ok | apply HW]|].
  apply (render_then_write 2 2 minus_1_5 plus_1_5 minus_1_5 plus_1_5 zeros
           (replicate 12 0) HW HW Hf zeros_ok Hm).
Defined.

Lemma main_grid : Int.mul 1000 20 = 20000.
Proof. reflexivity. Qed.

Lemma fits_main : fits 20000 20000.
Proof. unfold fits, Int.INT_MAX. lia. Qed.



Lemma julia_rgb_null W H xl xr yb yt malloc :
  malloc (alloc_size W H) = None -> 1 <= W -> 1 <= H ->
  julia_rgb W H xl xr yb yt malloc = Fault (NullStore 0).
Proof.
  intros Hm HW HH. rewrite julia_rgb_exec, Hm.
  destruct (render_stores_first W H xl xr yb yt HW HH) as (v & rest & ->).
  reflexivity.
Qed.

(** [main], allocation failed: nothing tests the pointer, the run ends
    at the first store of the fill loop, before any file is opened or
    written, whatever [fopen] would have answered. *)
Theorem main_without_memory malloc opened :
  malloc (alloc_size 20000 20000) = None -> main malloc opened = Fault (NullStore 0).
Proof.
  intros Hm. unfold main. rewrite main_grid. cbv zeta.
  rewrite (julia_rgb_null 20000 20000 _ _ _ _ malloc Hm) by lia. reflexivity.
Qed.

Lemma main_without_memory_witness :
  no_memory (alloc_size 20000 20000) = None /\ main no_memory true = Fault (NullStore 0).
Proof.
  split; [reflexivity|]. apply (main_without_memory no_memory true). reflexivity.
Defined.

(** An empty grid ([W <= 0] or [H <= 0]): the loops run no store and
    [julia_rgb] returns what [malloc] returned, null pointer included. *)
Theorem empty_grid_untouched W H xl xr yb yt malloc :
  W <= 0 \/ H <= 0 ->
  julia_rgb W H xl xr yb yt malloc = Done (malloc (alloc_size W H)).
Proof.
  intros Hempty. rewrite julia_rgb_exec. unfold render_stores, row_stores.
  destruct Hempty as [HW|HH].
  - replace (Z.to_nat W) with 0%nat by lia. cbn [stores_from].
    rewrite stores_from_nil by reflexivity. reflexivity.
  - replace (Z.to_nat H) with 0%nat by lia. reflexivity.
Qed.

Lemma empty_grid_untouched_witness :
  (0 <= 0 \/ 5 <= 0)
  /\ julia_rgb 0 5 minus_1_5 plus_1_5 minus_1_5 plus_1_5 zeros = Done (zeros (alloc_size 0 5)).
Proof.
  assert (He : 0 <= 0 \/ 5 <= 0) by (left; lia).
  split; [exact He|].
  apply (empty_grid_untouched 0 5 minus_1_5 plus_1_5 minus_1_5 plus_1_5 zeros He).
Defined.

(** ** Not-a-number points and degenerate grids *)


Lemma mul_nan_r x : F32.mul x S754_nan = S754_nan.
Proof. now destruct x. Qed.

Lemma add_nan_r x : F32.add x S754_nan = S754_nan.
Proof. now destruct x. Qed.

Lemma sub_nan_r x : F32.sub x S754_nan = S754_nan.
Proof. now destruct x. Qed.

Lemma update_nan a : has_nan a = true -> update a = (S754_nan, S754_nan).
Proof.
  destruct a as [ar ai]. unfold has_nan. cbn [fst snd]. intros Hn.
  apply orb_prop in Hn as [Hn|Hn].
  - destruct ar; try discriminate Hn. unfold update.
    change (F32.mul S754_nan S754_nan) with S754_nan.
    change (F32.mul S754_nan ai) with S754_nan.
    rewrite mul_nan_r. reflexivity.
  - destruct ai; try discriminate Hn. unfold update.
    change (F32.mul S754_nan S754_nan) with S754_nan.
    change (F32.mul S754_nan ar) with S754_nan.
    rewrite mul_nan_r, sub_nan_r. reflexivity.
Qed.

Lemma julia_loop_nan n a : has_nan a = true -> julia_loop n a = (1, n).
Proof.
  revert a. induction n as [|n IH]; intros a Hn; [reflexivity|].
  cbn [julia_loop]. rewrite (update_nan a Hn).
  change (escaped (S754_nan, S754_nan)) with false. cbv iota.
  rewrite IH by reflexivity. reflexivity.
Qed.

(** A pixel whose point has a NaN coordinate never passes the escape
    test (every comparison with a NaN is false): it is classified in
    the set after all 200 updates. *)
Theorem nan_point_in_set w h xl xr yb yt i j :
  F32.is_nan (point_x w xl xr i) || F32.is_nan (point_y h yb yt j) = true ->
  julia_point w h xl xr yb yt i j = 1 /\ julia_steps w h xl xr yb yt i j = 200%nat.
Proof.
  intros Hn. unfold julia_point, julia_steps, julia_run.
  rewrite julia_loop_nan by exact Hn. split; reflexivity.
Qed.

Lemma nan_point_in_set_witness :
  F32.is_nan (point_x 20000 S754_nan plus_1_5 0)
    || F32.is_nan (point_y 20000 minus_1_5 plus_1_5 0) = true
  /\ julia_point 20000 20000 S754_nan plus_1_5 minus_1_5 plus_1_5 0 0 = 1
  /\ julia_steps 20000 20000 S754_nan plus_1_5 minus_1_5 plus_1_5 0 0 = 200%nat.
Proof.
  assert (Hn : F32.is_nan (point_x 20000 S754_nan plus_1_5 0)
               || F32.is_nan (point_y 20000 minus_1_5 plus_1_5 0) = true) by reflexivity.
  split; [exact Hn|].
  apply (nan_point_in_set 20000 20000 S754_nan plus_1_5 minus_1_5 plus_1_5 0 0 Hn).
Defined.

Lemma zero_over_zero lo hi :
  F32.is_finite lo = true -> F32.is_finite hi = true ->
  point_x 1 lo hi 0 = S754_nan.
Proof.
  intros Hl Hh. unfold point_x.
  change (Int.sub (Int.sub 1 0) 1) with 0. change (Int.sub 1 1) with 0.
  change (F32.of_int 0) with (S754_zero false).
  destruct lo as [[]| | |[] ? ?]; try discriminate Hl;
    destruct hi as [[]| | |[] ? ?]; try discriminate Hh; reflexivity.
Qed.

(** A grid one pixel wide or one pixel high divides by [(float) 0]: with
    finite bounds the coordinate is [0 / 0], a NaN, and every pixel is
    classified in the set after 200 updates. *)
Theorem one_pixel_wide_grid w h xl xr yb yt i j :
  F32.is_finite xl = true -> F32.is_finite xr = true ->
  F32.is_finite yb = true -> F32.is_finite yt = true ->
  point_x 1 xl xr 0 = S754_nan
  /\ point_y 1 yb yt 0 = S754_nan
  /\ julia_run 1 h xl xr yb yt 0 j = (1, 200%nat)
  /\ julia_run w 1 xl xr yb yt i 0 = (1, 200%nat).
Proof.
  intros Hl Hr Hb Ht.
  pose proof (zero_over_zero xl xr Hl Hr) as Hx.
  pose proof (zero_over_zero yb yt Hb Ht) as Hy.
  change (point_x 1 yb yt 0) with (point_y 1 yb yt 0) in Hy.
  split; [exact Hx|]. split; [exact Hy|]. unfold julia_run. rewrite Hx, Hy.
  split; apply julia_loop_nan; [reflexivity|].
  unfold has_nan. cbn [fst snd F32.is_nan]. apply orb_true_r.
Qed.

Lemma one_pixel_wide_grid_witness :
  (F32.is_finite minus_1_5 = true /\ F32.is_finite plus_1_5 = true)
  /\ julia_run 1 20000 minus_1_5 plus_1_5 minus_1_5 plus_1_5 0 7 = (1, 200%nat).
Proof.
  assert (Hm : F32.is_finite minus_1_5 = true) by reflexivity.
  assert (Hp : F32.is_finite plus_1_5 = true) by reflexivity.
  split; [split; assumption|].
  apply (one_pixel_wide_grid 20000 20000 minus_1_5 plus_1_5 minus_1_5 plus_1_5 0 7
           Hm Hp Hm Hp).
Defined.

(** ** The second header and the buffer handed to the encoder *)

Lemma le16_bytes W :
  0 <= W <= Int.INT_MAX ->
  let b0 := Int.to_uchar (Int.rem W 256) in
  let b1 := Int.to_uchar (Int.div W 256) in
  0 <= b0 < 256 /\ 0 <= b1 < 256 /\ b0 + 256 * b1 = W mod 65536.
Proof.
  unfold Int.INT_MAX. intros HW. cbv zeta. unfold Int.to_uchar, Int.rem, Int.div.
  rewrite Z.rem_mod_nonneg, Z.quot_div_nonneg by lia.
  assert (0 <= W / 256 <= W) by (split; [apply Z.div_pos; lia | apply Z.div_le_upper_bound; lia]).
  rewrite wrap_small by lia. rewrite Z.mod_mod by lia.
  change 65536 with (256 * 256). rewrite Z.rem_mul_r by lia.
  repeat split; try apply Z.mod_pos_bound; lia.
Qed.

(** The second header holds width and height as two little-endian
    bytes each: all six bytes are below 256, bytes 0-1 decode to
    [W mod 65536] and bytes 2-3 to [H mod 65536], hence to [W] and [H]
    themselves below 65536 (larger sizes are silently truncated). *)
Theorem header2_little_endian W H :
  0 <= W <= Int.INT_MAX -> 0 <= H <= Int.INT_MAX ->
  exists b0 b1 b2 b3,
    header2 W H = [b0; b1; b2; b3; 24; 0]
    /\ Forall (fun b => 0 <= b < 256) (header2 W H)
    /\ b0 + 256 * b1 = W mod 65536
    /\ b2 + 256 * b3 = H mod 65536
    /\ (W < 65536 -> H < 65536 -> b0 + 256 * b1 = W /\ b2 + 256 * b3 = H).
Proof.
  intros HW HH.
  destruct (le16_bytes W HW) as (W0 & W1 & EW).
  destruct (le16_bytes H HH) as (H0 & H1 & EH).
  eexists _, _, _, _. split; [reflexivity|].
  split.
  { unfold header2. cbn [map].
    constructor; [exact W0|]. constructor; [exact W1|].
    constructor; [exact H0|]. constructor; [exact H1|].
    constructor; [change (Int.to_uchar 24) with 24; lia|].
    constructor; [change (Int.to_uchar 0) with 0; lia|]. constructor. }
  split; [exact EW|]. split; [exact EH|].
  intros HW' HH'. rewrite EW, EH. rewrite !Z.mod_small; lia.
Qed.

Lemma header2_little_endian_witness :
  (0 <= 70000 <= Int.INT_MAX /\ 0 <= 20000 <= Int.INT_MAX)
  /\ exists b0 b1 b2 b3,
    header2 70000 20000 = [b0; b1; b2; b3; 24; 0]
    /\ Forall (fun b => 0 <= b < 256) (header2 70000 20000)
    /\ b0 + 256 * b1 = 70000 mod 65536
    /\ b2 + 256 * b3 = 20000 mod 65536
    /\ (70000 < 65536 -> 20000 < 65536 -> b0 + 256 * b1 = 70000 /\ b2 + 256 * b3 = 20000).
Proof.
  assert (HW : 0 <= 70000 <= Int.INT_MAX) by (unfold Int.INT_MAX; lia).
  assert (HH : 0 <= 20000 <= Int.INT_MAX) by (unfold Int.INT_MAX; lia).
  split; [split; assumption|].
  apply (header2_little_endian 70000 20000 HW HH).
Defined.


(** [tga_write] writes the first [3 * W * H] bytes of the buffer it is
    given and ignores what follows; a buffer shorter than that makes
    the last [fwrite] read outside the block. *)
Theorem tga_write_buffer_bounds W H img extra :
  0 <= W -> 0 <= H -> fits W H -> Z.of_nat (length img) = 3 * W * H ->
  tga_write W H (img ++ extra) = Done (header1 ++ header2 W H ++ img)
  /\ (forall short, Z.of_nat (length short) < 3 * W * H ->
        tga_write W H short = Fault ReadOutOfBounds).
Proof.
  intros HW HH Hfit Hlen. split.
  - rewrite tga_write_unfold, tga_count_exact by assumption.
    rewrite decide_True by (rewrite length_app; lia).
    replace (Z.to_nat (3 * W * H)) with (length img) by lia.
    rewrite take_app_length. reflexivity.
  - intros short Hs. rewrite tga_write_unfold, tga_count_exact by assumption.
    rewrite decide_False by lia. reflexivity.
Qed.

Lemma tga_write_buffer_bounds_witness :
  (0 <= 1 /\ fits 1 1 /\ Z.of_nat (length [0; 0; 255]) = 3 * 1 * 1)
  /\ tga_write 1 1 ([0; 0; 255] ++ [7; 7]) = Done (header1 ++ header2 1 1 ++ [0; 0; 255])
  /\ (forall short, Z.of_nat (length short) < 3 * 1 * 1 ->
        tga_write 1 1 short = Fault ReadOutOfBounds).
Proof.
  assert (H1 : 0 <= 1) by lia.
  assert (Hf : fits 1 1) by (unfold fits, Int.INT_MAX; lia).
  assert (Hl : Z.of_nat (length [0; 0; 255]) = 3 * 1 * 1) by reflexivity.
  split; [repeat apply conj; assumption|].
  apply (tga_write_buffer_bounds 1 1 [0; 0; 255] [7; 7] H1 H1 Hf Hl).
Defined.

(** The classification loop does not distinguish a point from its
    negation: same result, same number of updates. *)
Theorem julia_loop_negation n ar ai :
  julia_loop n (F32.opp ar, F32.opp ai) = julia_loop n (ar, ai).
Proof.
  destruct n as [|n]; [reflexivity|].
  cbn [julia_loop].
  now rewrite (update_rotated ar ai (F32.opp ar) (F32.opp ai) (eqz_refl _) (eqz_refl _)).
Qed.

(** When [W * H] fits an [int] but [3 * W * H] does not (and is below
    [2^32]), the int product is negative and its conversion to [size_t]
    makes [julia_rgb] ask [malloc] for more than [2^64 - 2^31] bytes. *)
Theorem alloc_size_overflow W H :
  1 <= W -> 1 <= H -> W * H <= Int.INT_MAX ->
  Int.INT_MAX < 3 * W * H < 4294967296 ->
  alloc_size W H = 18446744073709551616 - 4294967296 + 3 * W * H
  /\ 18446744073709551616 - 2147483648 <= alloc_size W H.
Proof.
  unfold Int.INT_MAX. intros HW HH Hwh Hov.
  assert (Hwrap : Int.wrap (W * H * 3) = 3 * W * H - 4294967296).
  { unfold Int.wrap.
    replace (W * H * 3 + 2147483648)
      with ((3 * W * H - 2147483648) + 1 * 4294967296) by lia.
    rewrite Z.mod_add by lia. rewrite Z.mod_small by lia. lia. }
  assert (Hsize : (3 * W * H - 4294967296) mod 18446744073709551616
                  = 18446744073709551616 - 4294967296 + 3 * W * H).
  { replace (3 * W * H - 4294967296)
      with ((18446744073709551616 - 4294967296 + 3 * W * H)
            + (-1) * 18446744073709551616) by lia.
    rewrite Z.mod_add by lia. apply Z.mod_small. lia. }
  assert (E : alloc_size W H = 18446744073709551616 - 4294967296 + 3 * W * H).
  { unfold alloc_size, Int.to_size_t, Int.mul.
    rewrite (wrap_small (W * H)) by nia.
    rewrite Hwrap, Hsize, Z.mul_1_r. apply Z.mod_small. lia. }
  split; [exact E|]. rewrite E. lia.
Qed.

Lemma alloc_size_overflow_witness :
  (1 <= 30000 /\ 30000 * 30000 <= Int.INT_MAX
   /\ Int.INT_MAX < 3 * 30000 * 30000 < 4294967296)
  /\ alloc_size 30000 30000 = 18446744073709551616 - 4294967296 + 3 * 30000 * 30000.
Proof.
  assert (H1 : 1 <= 30000) by lia.
  assert (H2 : 30000 * 30000 <= Int.INT_MAX) by (unfold Int.INT_MAX; lia).
  assert (H3 : Int.INT_MAX < 3 * 30000 * 30000 < 4294967296) by (unfold Int.INT_MAX; lia).
  split; [repeat apply conj; first [assumption | apply H3]|].
  apply (alloc_size_overflow 30000 30000 H1 H1 H2 H3).
Defined.

(** The offset of a pixel determines the pixel: it is a multiple of 3,
    and [offset / 3] has remainder [i] and quotient [j] by [W]. *)
Theorem offset_decodes W H i j :
  1 <= W -> 1 <= H -> fits W H -> 0 <= i < W -> 0 <= j < H ->
  offset W i j mod 3 = 0
  /\ (offset W i j / 3) mod W = i
  /\ (offset W i j / 3) / W = j.
Proof.
  intros HW HH Hfit Hi Hj. rewrite (offset_exact W H i j) by assumption.
  rewrite (Z.mul_comm 3), Z.mod_mul, Z.div_mul by lia.
  split; [reflexivity|].
  rewrite (Z.add_comm (j * W)), Z.mod_add, Z.div_add by lia.
  rewrite Z.mod_small, Z.div_small by lia. lia.
Qed.

Lemma offset_decodes_witness :
  (1 <= 20000 /\ fits 20000 20000 /\ 0 <= 17 < 20000 /\ 0 <= 4 < 20000)
  /\ offset 20000 17 4 mod 3 = 0
  /\ (offset 20000 17 4 / 3) mod 20000 = 17
  /\ (offset 20000 17 4 / 3) / 20000 = 4.
Proof.
  assert (H1 : 1 <= 20000) by lia.
  assert (Hi : 0 <= 17 < 20000) by lia.
  assert (Hj : 0 <= 4 < 20000) by lia.
  split; [repeat apply conj; first [assumption | exact fits_main | apply Hi | apply Hj]|].
  apply (offset_decodes 20000 20000 17 4 H1 H1 fits_main Hi Hj).
Defined.

(** ** The doubled product *)

Lemma add_self_normal s m e :
  Z.pos (digits2_pos m) = 24 -> -149 <= e < 104 ->
  F32.add (S754_finite s m e) (S754_finite s m e) = S754_finite s m (e + 1).
Proof.
  intros Hd He.
  assert (Hb : bounded F32.prec F32.emax m (e + 1) = true).
  { unfold bounded, canonical_mantissa. rewrite Hd, fexp_eq.
    apply andb_true_intro. split; [apply Z.eqb_eq; lia |].
    apply Z.leb_le. change (F32.emax - F32.prec) with 104. lia. }
  unfold F32.add, SFadd. rewrite Z.min_id.
  unfold shl_align at 1 2. rewrite Z.sub_diag. cbn [fst].
  assert (Hsum : cond_Zopp s (Z.pos m) + cond_Zopp s (Z.pos m)
                 = cond_Zopp s (Z.pos (shl_pos 1 m))).
  { destruct s; cbn [cond_Zopp shl_pos]; lia. }
  rewrite Hsum.
  assert (Hround : binary_round F32.prec F32.emax s (shl_pos 1 m) e = S754_finite s m (e + 1)).
  { unfold binary_round. cbn [shl_pos digits2_pos]. rewrite Pos2Z.inj_succ, Hd, fexp_eq.
    unfold shl_align.
    replace (Z.max (Z.succ 24 + e - 24) (-149) - e) with 1 by lia.
    replace e with (e + 1 - Z.of_nat 1) at 1 by lia.
    apply (round_aux_shifted s m (e + 1) 1 Hb). }
  destruct s; cbn [cond_Zopp Z.opp binary_normalize]; exact Hround.
Qed.

Lemma mul_two_normal s m e :
  Z.pos (digits2_pos m) = 24 -> -149 <= e < 104 ->
  F32.mul (F32.of_int 2) (S754_finite s m e) = S754_finite s m (e + 1).
Proof.
  intros Hd He.
  assert (Hb : bounded F32.prec F32.emax m (e + 1) = true).
  { unfold bounded, canonical_mantissa. rewrite Hd, fexp_eq.
    apply andb_true_intro. split; [apply Z.eqb_eq; lia |].
    apply Z.leb_le. change (F32.emax - F32.prec) with 104. lia. }
  change (F32.of_int 2) with (S754_finite false 8388608 (-22)).
  unfold F32.mul, SFmul. cbn [xorb].
  change (8388608 * m)%positive with (shl_pos 23 m).
  replace (-22 + e) with (e + 1 - Z.of_nat 23) by lia.
  apply (round_aux_shifted s m (e + 1) 23 Hb).
Qed.

(** Line 201 computes [2 ar ai] as [ar * ai + ai * ar]: when the
    rounded product is a normal number below the overflow threshold,
    the sum is that product with its exponent incremented, with no
    second rounding, and equals [2 * (ar * ai)]. *)
Theorem doubling_is_exact ar ai s m e :
  F32.mul ar ai = S754_finite s m e ->
  Z.pos (digits2_pos m) = 24 -> -149 <= e < 104 ->
  (ar * ai + ai * ar)%f32 = S754_finite s m (e + 1)
  /\ (ar * ai + ai * ar)%f32 = (F32.of_int 2 * (ar * ai))%f32.
Proof.
  intros Hp Hd He. rewrite (mul_comm ai ar), Hp.
  rewrite add_self_normal, mul_two_normal by assumption. split; reflexivity.
Qed.

Lemma doubling_is_exact_witness :
  (F32.mul plus_1_5 minus_1_5 = S754_finite true 9437184 (-22)
   /\ Z.pos (digits2_pos 9437184) = 24 /\ -149 <= -22 < 104)
  /\ (plus_1_5 * minus_1_5 + minus_1_5 * plus_1_5)%f32 = S754_finite true 9437184 (-22 + 1).
Proof.
  assert (Hp : F32.mul plus_1_5 minus_1_5 = S754_finite true 9437184 (-22)) by reflexivity.
  assert (Hd : Z.pos (digits2_pos 9437184) = 24) by reflexivity.
  assert (He : -149 <= -22 < 104) by lia.
  split; [repeat apply conj; first [assumption | apply He]|].
  apply (doubling_is_exact plus_1_5 minus_1_5 true 9437184 (-22) Hp Hd He).
Defined.

Lemma elem_of_stores_from_inv n i0 (f : Z -> list (Z * Z)) x :
  x ∈ stores_from n i0 f -> exists i, i0 <= i < i0 + Z.of_nat n /\ x ∈ f i.
Proof.
  revert i0. induction n as [|n IH]; intros i0 Hx; [inversion Hx|].
  cbn [stores_from] in Hx. apply elem_of_app in Hx as [Hx|Hx].
  - exists i0. split; [lia|exact Hx].
  - destruct (IH _ Hx) as (i & Hi & Hin). exists i. split; [lia|exact Hin].
Qed.

Lemma render_store_values W H xl xr yb yt s :
  1 <= W -> 1 <= H -> fits W H ->
  s ∈ render_stores W H xl xr yb yt ->
  Int.to_uchar s.2 = 0 \/ Int.to_uchar s.2 = 255.
Proof.
  intros HW HH Hfit Hs. unfold render_stores in Hs.
  apply elem_of_stores_from_inv in Hs as (j & Hj & Hs). unfold row_stores in Hs.
  apply elem_of_stores_from_inv in Hs as (i & Hi & Hs).
  rewrite pixel_stores_exact in Hs by (try assumption; lia). cbv zeta in Hs.
  destruct (julia_point_01 W H xl xr yb yt i j) as [E|E]; rewrite E in Hs;
    repeat (apply elem_of_cons in Hs as [->|Hs]); try (inversion Hs); cbn; auto.
Qed.

(** Whatever the block held when it was allocated, every byte of the
    rendered buffer is 0 or 255. *)
Theorem rendered_bytes_two_valued W H xl xr yb yt malloc b0 rgb :
  1 <= W -> 1 <= H -> fits W H ->
  allocator_ok malloc -> malloc (alloc_size W H) = Some b0 ->
  julia_rgb W H xl xr yb yt malloc = Done (Some rgb) ->
  Forall (fun b => b = 0 \/ b = 255) rgb.
Proof.
  intros HW HH Hfit Hok Hm Hrun.
  destruct (julia_rgb_writes W H xl xr yb yt HW HH Hfit malloc b0 Hok Hm) as [Hrun' Hlen].
  rewrite Hrun' in Hrun. injection Hrun as <-.
  rewrite (writes_in_order _ [] b0).
  2:{ cbn [length]. rewrite render_addresses by assumption. f_equal; lia. }
  cbn [app]. apply Forall_fmap, Forall_forall. intros s Hs.
  apply (render_store_values W H xl xr yb yt s HW HH Hfit Hs).
Qed.

Lemma rendered_bytes_two_valued_witness :
  (1 <= 2 /\ fits 2 2 /\ allocator_ok zeros
   /\ zeros (alloc_size 2 2) = Some (replicate 12 0)
   /\ julia_rgb 2 2 minus_1_5 plus_1_5 minus_1_5 plus_1_5 zeros
      = Done (Some (replicate 12 255)))
  /\ Forall (fun b => b = 0 \/ b = 255) (replicate 12 255).
Proof.
  assert (HW : 1 <= 2) by lia.
  assert (Hf : fits 2 2) by (unfold fits, Int.INT_MAX; lia).
  assert (Hm : zeros (alloc_size 2 2) = Some (replicate 12 0)) by reflexivity.
  assert (Hr : julia_rgb 2 2 minus_1_5 plus_1_5 minus_1_5 plus_1_5 zeros
               = Done (Some (replicate 12 255))) by (vm_compute; reflexivity).
  split; [repeat apply conj; first [assumption | exact zeros_ok]|].
  apply (rendered_bytes_two_valued 2 2 minus_1_5 plus_1_5 minus_1_5 plus_1_5 zeros
           (replicate 12 0) (replicate 12 255) HW HW Hf zeros_ok Hm Hr).
Defined.

Lemma julia_point_rotated W H xl xr yb yt i j :
  1 < W <= Int.INT_MAX -> 1 < H <= Int.INT_MAX -> 0 <= i < W -> 0 <= j < H ->
  eqz xr (F32.opp xl) -> eqz yt (F32.opp yb) ->
  julia_point W H xl xr yb yt (W - 1 - i) (H - 1 - j) = julia_point W H xl xr yb yt i j.
Proof.
  intros HW HH Hi Hj Hx Hy.
  pose proof (point_x_rotated W xl xr i HW Hi Hx) as Rx.
  pose proof (point_x_rotated H yb yt j HH Hj Hy) as Ry.
  change (point_x H yb yt) with (point_y H yb yt) in Ry.
  pose proof (update_rotated _ _ _ _ Rx Ry) as Hu.
  unfold julia_point, julia_run.
  change 200%nat with (S 199). cbn [julia_loop]. now rewrite Hu.
Qed.

(** With bounds symmetric about the origin the rendered image is
    unchanged by a rotation of 180 degrees: pixel [(i, j)] and pixel
    [(W - 1 - i, H - 1 - j)] hold the same three bytes. *)
Theorem rendered_image_point_symmetric W H xl xr yb yt malloc b0 :
  1 < W -> 1 < H -> fits W H ->
  allocator_ok malloc -> malloc (alloc_size W H) = Some b0 ->
  eqz xr (F32.opp xl) -> eqz yt (F32.opp yb) ->
  exists rgb,
    julia_rgb W H xl xr yb yt malloc = Done (Some rgb)
    /\ forall i j c, 0 <= i < W -> 0 <= j < H -> 0 <= c < 3 ->
         rgb !! Z.to_nat (3 * ((H - 1 - j) * W + (W - 1 - i)) + c)
         = rgb !! Z.to_nat (3 * (j * W + i) + c).
Proof.
  intros HW HH Hfit Hok Hm Hx Hy.
  assert (HWm : 1 < W <= Int.INT_MAX) by (unfold fits in Hfit; nia).
  assert (HHm : 1 < H <= Int.INT_MAX) by (unfold fits in Hfit; nia).
  destruct (julia_rgb_writes W H xl xr yb yt ltac:(lia) ltac:(lia) Hfit malloc b0 Hok Hm)
    as [Hrun Hlen].
  eexists. split; [exact Hrun|]. intros i j c Hi Hj Hc.
  destruct (rendered_pixel W H xl xr yb yt b0 i j ltac:(lia) ltac:(lia) Hfit Hlen Hi Hj)
    as (P0 & P1 & P2).
  destruct (rendered_pixel W H xl xr yb yt b0 (W - 1 - i) (H - 1 - j)
              ltac:(lia) ltac:(lia) Hfit Hlen ltac:(lia) ltac:(lia)) as (Q0 & Q1 & Q2).
  rewrite (julia_point_rotated W H xl xr yb yt i j HWm HHm Hi Hj Hx Hy) in Q0, Q1.
  assert (Hcase : c = 0 \/ c = 1 \/ c = 2) by lia.
  destruct Hcase as [-> | [-> | ->]]; rewrite ?Z.add_0_r; congruence.
Qed.

Lemma rendered_image_point_symmetric_witness :
  (1 < 2 /\ fits 2 2 /\ allocator_ok zeros
   /\ zeros (alloc_size 2 2) = Some (replicate 12 0)
   /\ eqz plus_1_5 (F32.opp minus_1_5))
  /\ exists rgb,
    julia_rgb 2 2 minus_1_5 plus_1_5 minus_1_5 plus_1_5 zeros = Done (Some rgb)
    /\ forall i j c, 0 <= i < 2 -> 0 <= j < 2 -> 0 <= c < 3 ->
         rgb !! Z.to_nat (3 * ((2 - 1 - j) * 2 + (2 - 1 - i)) + c)
         = rgb !! Z.to_nat (3 * (j * 2 + i) + c).
Proof.
  assert (HW : 1 < 2) by lia.
  assert (Hf : fits 2 2) by (unfold fits, Int.INT_MAX; lia).
  assert (Hm : zeros (alloc_size 2 2) = Some (replicate 12 0)) by reflexivity.
  assert (Hs : eqz plus_1_5 (F32.opp minus_1_5)) by (left; reflexivity).
  split; [repeat apply conj; first [assumption | exact zeros_ok]|].
  apply (rendered_image_point_symmetric 2 2 minus_1_5 plus_1_5 minus_1_5 plus_1_5 zeros
           (replicate 12 0) HW HW Hf zeros_ok Hm Hs Hs).
Defined.

(** The stores of the fill loop may be performed in any order
    whatever (not only row by row): the final buffer is that of the
    sequential run. *)
Theorem any_store_order W H xl xr yb yt malloc b0 tr :
  1 <= W -> 1 <= H -> fits W H ->
  allocator_ok malloc -> malloc (alloc_size W H) = Some b0 ->
  tr ≡ₚ render_stores W H xl xr yb yt ->
  exec tr (Some b0) = julia_rgb W H xl xr yb yt malloc.
Proof.
  intros HW HH Hfit Hok Hm Htr.
  destruct (julia_rgb_writes W H xl xr yb yt HW HH Hfit malloc b0 Hok Hm) as [Hrun Hlen].
  pose proof (render_addresses W H xl xr yb yt HW HH Hfit) as Haddr.
  pose proof (render_in_bounds W H xl xr yb yt HW HH Hfit) as Hb.
  rewrite Hrun, exec_in_bounds.
  - do 2 f_equal. symmetry. apply writes_perm; [now symmetry| |].
    + rewrite Haddr. apply NoDup_seqZ.
    + eapply Forall_impl; [exact Hb|]. intros s Hs. apply Hs.
  - rewrite Htr, Hlen. exact Hb.
Qed.

Lemma any_store_order_witness :
  (1 <= 2 /\ fits 2 2 /\ allocator_ok zeros
   /\ zeros (alloc_size 2 2) = Some (replicate 12 0)
   /\ reverse (render_stores 2 2 minus_1_5 plus_1_5 minus_1_5 plus_1_5)
      ≡ₚ render_stores 2 2 minus_1_5 plus_1_5 minus_1_5 plus_1_5)
  /\ exec (reverse (render_stores 2 2 minus_1_5 plus_1_5 minus_1_5 plus_1_5))
          (Some (replicate 12 0))
     = julia_rgb 2 2 minus_1_5 plus_1_5 minus_1_5 plus_1_5 zeros.
Proof.
  assert (HW : 1 <= 2) by lia.
  assert (Hf : fits 2 2) by (unfold fits, Int.INT_MAX; lia).
  assert (Hm : zeros (alloc_size 2 2) = Some (replicate 12 0)) by reflexivity.
  assert (Hp : reverse (render_stores 2 2 minus_1_5 plus_1_5 minus_1_5 plus_1_5)
               ≡ₚ render_stores 2 2 minus_1_5 plus_1_5 minus_1_5 plus_1_5)
    by apply reverse_Permutation.
  split; [repeat apply conj; first [assumption | exact zeros_ok]|].
  apply (any_store_order 2 2 minus_1_5 plus_1_5 minus_1_5 plus_1_5 zeros
           (replicate 12 0) _ HW HW Hf zeros_ok Hm Hp).
Defined.
